(** * Transaction service: ledger, balances and idempotent transfers

    A shallow embedding of the transaction-processing core of the banking
    transaction microservice:

    - [utils/referenceGenerator.js]      (generateReference, isValidReference)
    - [models/Transaction.js]            (Transaction.validate)
    - [models/AccountProjection.js]      (isActive, canDebit, canCredit)
    - [models/IdempotencyKey.js]         (validate, createExpiryDate)
    - [database/schema.sql]              (tables, constraints, balance trigger)
    - [repositories/*Repository.js]      (create, createMultiple, lockForUpdate,
                                          checkKey, updateWithResult, delete)
    - [services/TransactionService.js]   (processDeposit, processWithdrawal,
                                          processTransfer)

    Conventions of the model.

    - Money is an integer number of hundredths ([Z]); the schema stores
      DECIMAL(15,2) and the comparisons the service makes on JavaScript
      numbers agree with the exact ones on such values.
    - The database is a record of tables; every repository call is a function
      from a database to a result and a database.  A thrown error is a value.
    - The clock and the random source are inputs ([Env]).
    - Calls run one after another.  An atomic unit (db.transaction) commits
      or rolls the tables back; connections and waiting for row locks are not
      modelled, the order in which row locks are taken is recorded.
    - Timestamps of rows (created_at, updated_at, last_updated), the currency
      and the customer columns play no part in the operations and are left out. *)

From stdpp Require Import gmap strings list fin_maps.
From Stdlib Require Import ZArith Ascii String Lia Sorted.

Local Open Scope Z_scope.

(* ===================================================================== *)
(** ** Characters and strings *)
(* ===================================================================== *)

Module Chars.

Definition code (c : ascii) : nat := nat_of_ascii c.

(** [0-9] *)
Definition is_digit (c : ascii) : bool :=
  (Nat.leb 48 (code c)) && (Nat.leb (code c) 57).

(** [A-Z] *)
Definition is_upper (c : ascii) : bool :=
  (Nat.leb 65 (code c)) && (Nat.leb (code c) 90).

(** [a-z] *)
Definition is_lower (c : ascii) : bool :=
  (Nat.leb 97 (code c)) && (Nat.leb (code c) 122).

(** [A-Z0-9] *)
Definition is_upper_alnum (c : ascii) : bool := is_upper c || is_digit c.

(** One character of String.prototype.toUpperCase on ASCII input. *)
Definition to_upper (c : ascii) : ascii :=
  if is_lower c then ascii_of_nat (code c - 32) else c.

(** The decimal digit of [n mod 10]. *)
Definition dec_digit (n : Z) : ascii :=
  ascii_of_nat (48 + Z.to_nat (n mod 10)).

(** The base-36 digit of [n mod 36], lower case as Number.prototype.toString
    prints it: 0-9 then a-z. *)
Definition digit36 (n : nat) : ascii :=
  let d := (n mod 36)%nat in
  if Nat.ltb d 10 then ascii_of_nat (48 + d) else ascii_of_nat (87 + d).

End Chars.

Module Str.

Fixpoint all (p : ascii → bool) (s : string) : bool :=
  match s with
  | EmptyString => true
  | String c s' => p c && all p s'
  end.

Fixpoint map (f : ascii → ascii) (s : string) : string :=
  match s with
  | EmptyString => EmptyString
  | String c s' => String (f c) (map f s')
  end.

(** s.replace(/c/g, '') *)
Fixpoint remove (c : ascii) (s : string) : string :=
  match s with
  | EmptyString => EmptyString
  | String a s' => if Ascii.eqb a c then remove c s' else String a (remove c s')
  end.

Fixpoint of_list (l : list ascii) : string :=
  match l with
  | [] => EmptyString
  | c :: l' => String c (of_list l')
  end.

(** s.substring(a, b) and s.slice(a, b) for 0 <= a <= b. *)
Definition slice (a b : nat) (s : string) : string :=
  String.substring a (b - a) s.

Definition toUpperCase (s : string) : string := map Chars.to_upper s.

(** errors.join(sep) *)
Fixpoint join (sep : string) (l : list string) : string :=
  match l with
  | [] => ""
  | [x] => x
  | x :: l' => x +:+ sep +:+ join sep l'
  end.

(** [n] written with exactly [w] decimal digits (the low ones), on top of
    [acc]: the zero padding of Date.prototype.toISOString. *)
Fixpoint pad_acc (w : nat) (n : Z) (acc : string) : string :=
  match w with
  | O => acc
  | S w' => pad_acc w' (n / 10) (String (Chars.dec_digit n) acc)
  end.

Definition pad (w : nat) (n : Z) : string := pad_acc w n "".

End Str.

(* ===================================================================== *)
(** ** The reference pattern  /^REF[0-9]{8}-[A-Z0-9]{6}$/ *)
(* ===================================================================== *)

(** The pattern is a sequence of fixed-length pieces, so matching it needs no
    backtracking: each piece consumes a prefix and hands over the rest. *)
Module Pattern.

(** A literal. *)
Fixpoint lit (l s : string) : option string :=
  match l with
  | EmptyString => Some s
  | String c l' =>
      match s with
      | String a s' => if Ascii.eqb a c then lit l' s' else None
      | EmptyString => None
      end
  end.

(** [class]{n}: exactly [n] characters of the class. *)
Fixpoint rep (p : ascii → bool) (n : nat) (s : string) : option string :=
  match n with
  | O => Some s
  | S n' =>
      match s with
      | String a s' => if p a then rep p n' s' else None
      | EmptyString => None
      end
  end.

(** The end anchor: without the m flag, [$] matches at the end of input only. *)
Definition eoi (s : string) : bool :=
  match s with EmptyString => true | _ => false end.

Definition reference (s : string) : bool :=
  match lit "REF" s with
  | Some s1 =>
      match rep Chars.is_digit 8 s1 with
      | Some s2 =>
          match lit "-" s2 with
          | Some s3 =>
              match rep Chars.is_upper_alnum 6 s3 with
              | Some s4 => eoi s4
              | None => false
              end
          | None => false
          end
      | None => false
      end
  | None => false
  end.

End Pattern.

(* ===================================================================== *)
(** ** utils/referenceGenerator.js *)
(* ===================================================================== *)

(** The UTC calendar date of a Date object. *)
Record UtcDate := {
  year : Z;
  month : Z;
  day : Z
}.

(** What one operation reads from its surroundings.
    - [clock]: new Date(), in milliseconds since the epoch;
    - [today]: the UTC calendar date of that instant;
    - [random_digits]: the digits Math.random().toString(36) prints after
      "0." (base 36, each taken modulo 36); the empty list is the draw 0,
      printed "0".  The draw 0.5 is [18], printed "0.i". *)
Record Env := {
  clock : Z;
  today : UtcDate;
  random_digits : list nat
}.

(** The date part (before the T) of Date.prototype.toISOString: YYYY-MM-DD for
    the years 0 to 9999, the expanded form (sign and six digits) otherwise.
    It is at least ten characters long, so the first ten characters of the
    whole ISO string are the first ten of this part. *)
Definition toISOString_date (d : UtcDate) : string :=
  let md := "-" +:+ Str.pad 2 (month d) +:+ "-" +:+ Str.pad 2 (day d) in
  if (0 <=? year d) && (year d <=? 9999) then Str.pad 4 (year d) +:+ md
  else (if year d <? 0 then "-" else "+") +:+ Str.pad 6 (Z.abs (year d)) +:+ md.

(** Math.random().toString(36) *)
Definition random_toString36 (digits : list nat) : string :=
  match digits with
  | [] => "0"
  | _ => "0." +:+ Str.of_list (List.map Chars.digit36 digits)
  end.

Definition generateReference (env : Env) : string :=
  let dateStr := Str.remove "-"%char (Str.slice 0 10 (toISOString_date (today env))) in
  let randomStr := Str.toUpperCase (Str.slice 2 8 (random_toString36 (random_digits env))) in
  "REF" +:+ dateStr +:+ "-" +:+ randomStr.

Definition isValidReference (reference : string) : bool :=
  Pattern.reference reference.

(* ===================================================================== *)
(** ** Data model (database/schema.sql and the model classes) *)
(* ===================================================================== *)

Inductive TxnType := DEPOSIT | WITHDRAWAL | TRANSFER_IN | TRANSFER_OUT.
Inductive AccountType := SAVINGS | CURRENT | SALARY.
Inductive AccountStatus := ACTIVE | FROZEN | CLOSED.

(** A row of account_projections, and the AccountProjection object built
    from it. *)
Record AccountProjection := {
  acc_account_id : Z;
  account_number : string;
  account_type : AccountType;
  current_balance : Z;
  status : AccountStatus
}.

(** The data handed to TransactionRepository.create / createMultiple. *)
Record TxnData := {
  td_account_id : Z;
  td_amount : Z;
  td_txn_type : TxnType;
  td_counterparty : option string;
  td_reference : string;
  td_description : option string
}.

(** A row of transactions (a ledger entry), also its toJSON(). *)
Record Transaction := {
  txn_id : Z;
  account_id : Z;
  amount : Z;
  txn_type : TxnType;
  counterparty : option string;
  reference : string;
  description : option string;
  balance_after : option Z
}.

(** The body of a transfer request. *)
Record TransferData := {
  from_account_id : Z;
  to_account_id : Z;
  tr_amount : Z;
  tr_description : option string
}.

(** What processTransfer returns. *)
Record TransferResult := {
  success : bool;
  transfer_reference : string;
  debit_transaction : Transaction;
  credit_transaction : Transaction;
  from_account_new_balance : Z;
  to_account_new_balance : Z
}.

(** What processDeposit and processWithdrawal return. *)
Record TxnResult := {
  r_success : bool;
  r_transaction : Transaction;
  r_new_balance : Z
}.

(** A row of idempotency_keys.  The JSON text of request_body and
    response_body is kept as the value it encodes (JSON.parse after
    JSON.stringify gives the same fields back). *)
Record IdempotencyKey := {
  ik_txn_id : option Z;
  request_body : TransferData;
  response_body : option TransferResult;
  expires_at : Z
}.

(** The database.  account_projections is keyed by its primary key,
    idempotency_keys by its unique key; transactions is kept in insertion
    order.  [txn_id_seq] is the next value of the BIGSERIAL sequence.
    [lock_trace] is not a table: it records, in order, the account ids whose
    row SELECT ... FOR UPDATE has locked (waiting for a lock is not
    modelled). *)
Record Database := {
  account_projections : gmap Z AccountProjection;
  transactions : list Transaction;
  idempotency_keys : gmap string IdempotencyKey;
  txn_id_seq : Z;
  lock_trace : list Z
}.

(** What a call throws: a JavaScript Error with its message, or an error of
    the database driver with its SQLSTATE code. *)
Inductive Error :=
| JsError (message : string)
| PgError (sqlstate : string).

Inductive Result (A : Type) :=
| Ok (a : A)
| Err (e : Error).
Arguments Ok {A} a.
Arguments Err {A} e.

(** An asynchronous call against the database: the value or the error, and
    the database it leaves behind. *)
Definition M (A : Type) : Type := Database → Result A * Database.

Definition ret {A} (a : A) : M A := fun db => (Ok a, db).
Definition throw {A} (e : Error) : M A := fun db => (Err e, db).

Definition bind {A B} (m : M A) (k : A → M B) : M B :=
  fun db =>
    match m db with
    | (Ok a, db') => k a db'
    | (Err e, db') => (Err e, db')
    end.

(** try { m } catch (error) { handler error } *)
Definition try_catch {A} (m : M A) (handler : Error → M A) : M A :=
  fun db =>
    match m db with
    | (Ok a, db') => (Ok a, db')
    | (Err e, db') => handler e db'
    end.

Notation "'let*' x ':=' m 'in' k" := (bind m (fun x => k))
  (at level 10, x name, m at level 100, k at level 200).

(** ROLLBACK: the tables go back to what they were at BEGIN.  Sequence values
    are not given back, and the lock trace is a record of what happened. *)
Definition rollback (at_begin now : Database) : Database :=
  {| account_projections := account_projections at_begin;
     transactions := transactions at_begin;
     idempotency_keys := idempotency_keys at_begin;
     txn_id_seq := txn_id_seq now;
     lock_trace := lock_trace now |}.

(** Modelled from the spec: [db.transaction] of database/connection.js, which
    is not among the sources.  The spec calls it the atomic unit: the callback
    runs between BEGIN and COMMIT, and when it throws the unit is rolled back
    and the error is thrown on, so that no partial state is visible. *)
Definition db_transaction {A} (callback : M A) : M A :=
  fun db =>
    match callback db with
    | (Ok a, db') => (Ok a, db')
    | (Err e, db') => (Err e, rollback db db')
    end.

(* ===================================================================== *)
(** ** models/AccountProjection.js *)
(* ===================================================================== *)

Definition isActive (a : AccountProjection) : bool :=
  match status a with ACTIVE => true | _ => false end.

Definition allowsOverdraft (a : AccountProjection) : bool :=
  match account_type a with CURRENT => true | _ => false end.

(** The object canDebit and canCredit return. *)
Inductive Check :=
| Allowed (newBalance : Z)
| Denied (reason : string).

Definition canDebit (a : AccountProjection) (amount : Z) : Check :=
  if negb (isActive a) then Denied "Account is not active"
  else
    let newBalance := current_balance a - amount in
    if (newBalance <? 0) && negb (allowsOverdraft a) then
      Denied "Insufficient balance - no overdraft allowed for this account type"
    else Allowed newBalance.

Definition canCredit (a : AccountProjection) (amount : Z) : Check :=
  if negb (isActive a) then Denied "Account is not active"
  else Allowed (current_balance a + amount).

(* ===================================================================== *)
(** ** models/Transaction.js *)
(* ===================================================================== *)

(** Transaction.validate: the list of error messages, in the order they are
    pushed.  The account id 0 and the amount 0 are falsy; the type is one of
    the four by construction. *)
Definition Transaction_validate (t : TxnData) : list string :=
  (if td_account_id t =? 0 then ["Valid account_id is required"] else []) ++
  (if td_amount t <=? 0 then ["Amount must be positive"] else []) ++
  (if negb (Pattern.reference (td_reference t))
   then ["Reference must follow pattern REF[YYYYMMDD]-[6CHARS]"] else []).

Definition isCredit (ty : TxnType) : bool :=
  match ty with DEPOSIT | TRANSFER_IN => true | _ => false end.

Definition isDebit (ty : TxnType) : bool :=
  match ty with WITHDRAWAL | TRANSFER_OUT => true | _ => false end.

(* ===================================================================== *)
(** ** models/IdempotencyKey.js *)
(* ===================================================================== *)

Definition IdempotencyKey_validate (key : string) : list string :=
  (if Nat.eqb (String.length key) 0 then ["Idempotency key is required"] else []) ++
  (if Nat.ltb 255 (String.length key)
   then ["Idempotency key must be less than 255 characters"] else []).

(** createExpiryDate: 24 hours after the clock reading. *)
Definition createExpiryDate (env : Env) : Z := clock env + 24 * 60 * 60 * 1000.

(* ===================================================================== *)
(** ** The transactions table: constraints and the balance trigger *)
(* ===================================================================== *)

Definition with_balance (a : AccountProjection) (b : Z) : AccountProjection :=
  {| acc_account_id := acc_account_id a;
     account_number := account_number a;
     account_type := account_type a;
     current_balance := b;
     status := status a |}.

(** A value a DECIMAL(15,2) column can hold, in hundredths. *)
Definition fits_decimal_15_2 (x : Z) : bool := Z.abs x <? 10 ^ 15.

(** A value a VARCHAR(n) column can hold. *)
Definition fits_varchar (n : nat) (s : option string) : bool :=
  match s with
  | Some v => Nat.leb (String.length v) n
  | None => true
  end.

(** The trigger function update_account_balance, BEFORE INSERT ON
    transactions FOR EACH ROW: the UPDATE of the account row (no row, no
    effect). *)
Definition update_account_balance (new : TxnData)
    (accounts : gmap Z AccountProjection) : gmap Z AccountProjection :=
  match td_txn_type new with
  | DEPOSIT | TRANSFER_IN =>
      alter (fun a => with_balance a (current_balance a + td_amount new))
            (td_account_id new) accounts
  | WITHDRAWAL | TRANSFER_OUT =>
      alter (fun a => with_balance a (current_balance a - td_amount new))
            (td_account_id new) accounts
  end.

Definition set_transactions_accounts (db : Database)
    (accounts : gmap Z AccountProjection) (txns : list Transaction) : Database :=
  {| account_projections := accounts;
     transactions := txns;
     idempotency_keys := idempotency_keys db;
     txn_id_seq := txn_id_seq db;
     lock_trace := lock_trace db |}.

Definition next_txn_id (db : Database) : Database :=
  {| account_projections := account_projections db;
     transactions := transactions db;
     idempotency_keys := idempotency_keys db;
     txn_id_seq := txn_id_seq db + 1;
     lock_trace := lock_trace db |}.

Definition reference_used (r : string) (txns : list Transaction) : bool :=
  existsb (fun t => String.eqb (reference t) r) txns.

(** INSERT INTO transactions (...) VALUES (...) RETURNING *.
    The statement takes the next txn_id, fits the values to the column types,
    runs the trigger (which updates the balance and fills balance_after with
    the balance it reads back), then checks positive_amount and
    valid_reference, the unique index on reference and the foreign key.  A
    statement that fails changes no table. *)
Definition insert_transaction (new : TxnData) : M Transaction :=
  fun db =>
    let db1 := next_txn_id db in
    if negb (fits_varchar 255 (td_counterparty new)
             && fits_varchar 50 (Some (td_reference new)))
    then (Err (PgError "22001"), db1)
    else if negb (fits_decimal_15_2 (td_amount new))
    then (Err (PgError "22003"), db1)
    else
      let accounts := update_account_balance new (account_projections db) in
      let after := current_balance <$> accounts !! td_account_id new in
      let row := {| txn_id := txn_id_seq db;
                    account_id := td_account_id new;
                    amount := td_amount new;
                    txn_type := td_txn_type new;
                    counterparty := td_counterparty new;
                    reference := td_reference new;
                    description := td_description new;
                    balance_after := after |} in
      if negb (from_option fits_decimal_15_2 true after)
      then (Err (PgError "22003"), db1)
      else if negb ((0 <? td_amount new) && Pattern.reference (td_reference new))
      then (Err (PgError "23514"), db1)
      else if reference_used (td_reference new) (transactions db)
      then (Err (PgError "23505"), db1)
      else if negb (bool_decide (is_Some (account_projections db !! td_account_id new)))
      then (Err (PgError "23503"), db1)
      else (Ok row, set_transactions_accounts db1 accounts (transactions db ++ [row])).

(* ===================================================================== *)
(** ** repositories/TransactionRepository.js *)
(* ===================================================================== *)

Definition validation_failed (errors : list string) : Error :=
  JsError ("Validation failed: " +:+ Str.join ", " errors).

Definition is_unique_violation (e : Error) : bool :=
  match e with
  | PgError code => String.eqb code "23505"
  | JsError _ => false
  end.

Definition TransactionRepository_create (transactionData : TxnData) : M Transaction :=
  match Transaction_validate transactionData with
  | [] =>
      try_catch (insert_transaction transactionData)
        (fun error =>
           if is_unique_violation error
           then throw (JsError "Transaction reference already exists")
           else throw error)
  | errors => throw (validation_failed errors)
  end.

(** The body of the for loop of createMultiple, run on the client of the
    unit. *)
Fixpoint createMultiple_loop (transactionsData : list TxnData) : M (list Transaction) :=
  match transactionsData with
  | [] => ret []
  | txnData :: rest =>
      match Transaction_validate txnData with
      | [] =>
          let* row := insert_transaction txnData in
          let* rows := createMultiple_loop rest in
          ret (row :: rows)
      | errors => throw (validation_failed errors)
      end
  end.

Definition createMultiple (transactionsData : list TxnData) : M (list Transaction) :=
  db_transaction (createMultiple_loop transactionsData).

(* ===================================================================== *)
(** ** repositories/AccountProjectionRepository.js *)
(* ===================================================================== *)

(** findById returns the account or null. *)
Definition findById (accountId : Z) : M (option AccountProjection) :=
  fun db => (Ok (account_projections db !! accountId), db).

Definition record_lock (accountId : Z) (db : Database) : Database :=
  {| account_projections := account_projections db;
     transactions := transactions db;
     idempotency_keys := idempotency_keys db;
     txn_id_seq := txn_id_seq db;
     lock_trace := lock_trace db ++ [accountId] |}.

(** lockForUpdate: SELECT ... FOR UPDATE on the client of the unit.  It throws
    when there is no row.  Its value is typed as findById's (an account or
    null) because its caller tests it for null. *)
Definition lockForUpdate (accountId : Z) : M (option AccountProjection) :=
  fun db =>
    match account_projections db !! accountId with
    | None => (Err (JsError "Account projection not found"), db)
    | Some row => (Ok (Some row), record_lock accountId db)
    end.

(* ===================================================================== *)
(** ** repositories/IdempotencyKeyRepository.js *)
(* ===================================================================== *)

Definition set_idempotency_keys (db : Database)
    (keys : gmap string IdempotencyKey) : Database :=
  {| account_projections := account_projections db;
     transactions := transactions db;
     idempotency_keys := keys;
     txn_id_seq := txn_id_seq db;
     lock_trace := lock_trace db |}.

Definition IdempotencyKeyRepository_create (key : string)
    (body : TransferData) (env : Env) : M IdempotencyKey :=
  match IdempotencyKey_validate key with
  | [] =>
      fun db =>
        let row := {| ik_txn_id := None;
                      request_body := body;
                      response_body := None;
                      expires_at := createExpiryDate env |} in
        match idempotency_keys db !! key with
        | Some _ => (Err (JsError "Idempotency key already exists"), db)
        | None => (Ok row, set_idempotency_keys db (<[key := row]> (idempotency_keys db)))
        end
  | errors => throw (validation_failed errors)
  end.

(** The status object of checkKey. *)
Record KeyStatus := {
  ks_exists : bool;
  ks_expired : bool;
  ks_processed : bool;
  ks_response : option TransferResult
}.

Definition checkKey (key : string) (env : Env) : M KeyStatus :=
  fun db =>
    match idempotency_keys db !! key with
    | None =>
        (Ok {| ks_exists := false; ks_expired := false;
               ks_processed := false; ks_response := None |}, db)
    | Some row =>
        let isExpired := expires_at row <? clock env in
        let isProcessed := bool_decide (is_Some (ik_txn_id row)) in
        (Ok {| ks_exists := true; ks_expired := isExpired;
               ks_processed := isProcessed; ks_response := response_body row |}, db)
    end.

Definition has_txn_id (id : Z) (txns : list Transaction) : bool :=
  existsb (fun t => txn_id t =? id) txns.

(** UPDATE idempotency_keys SET txn_id = $1, response_body = $2 WHERE key = $3;
    txn_id references transactions(txn_id). *)
Definition updateWithResult (key : string) (txnId : Z)
    (responseBody : TransferResult) : M IdempotencyKey :=
  fun db =>
    match idempotency_keys db !! key with
    | None => (Err (JsError "Idempotency key not found"), db)
    | Some row =>
        if has_txn_id txnId (transactions db) then
          let row' := {| ik_txn_id := Some txnId;
                         request_body := request_body row;
                         response_body := Some responseBody;
                         expires_at := expires_at row |} in
          (Ok row', set_idempotency_keys db (<[key := row']> (idempotency_keys db)))
        else (Err (PgError "23503"), db)
    end.

Definition IdempotencyKeyRepository_delete (key : string) : M bool :=
  fun db =>
    (Ok (bool_decide (is_Some (idempotency_keys db !! key))),
     set_idempotency_keys db (delete key (idempotency_keys db))).

(* ===================================================================== *)
(** ** services/TransactionService.js *)
(* ===================================================================== *)

(** The body of a deposit or withdrawal request. *)
Record OperationData := {
  op_account_id : Z;
  op_amount : Z;
  op_counterparty : option string;
  op_description : option string
}.

Definition processDeposit (depositData : OperationData) (env : Env) : M TxnResult :=
  let* account := findById (op_account_id depositData) in
  match account with
  | None => throw (JsError "Account not found")
  | Some account =>
      if negb (isActive account) then throw (JsError "Account is not active")
      else
        match canCredit account (op_amount depositData) with
        | Denied reason => throw (JsError reason)
        | Allowed newBalance =>
            let reference := generateReference env in
            let* transaction :=
              TransactionRepository_create
                {| td_account_id := op_account_id depositData;
                   td_amount := op_amount depositData;
                   td_txn_type := DEPOSIT;
                   td_counterparty := op_counterparty depositData;
                   td_reference := reference;
                   td_description := op_description depositData |} in
            ret {| r_success := true;
                   r_transaction := transaction;
                   r_new_balance := newBalance |}
        end
  end.

Definition processWithdrawal (withdrawalData : OperationData) (env : Env) : M TxnResult :=
  let* account := findById (op_account_id withdrawalData) in
  match account with
  | None => throw (JsError "Account not found")
  | Some account =>
      if negb (isActive account) then throw (JsError "Account is not active")
      else
        match canDebit account (op_amount withdrawalData) with
        | Denied reason => throw (JsError reason)
        | Allowed newBalance =>
            let reference := generateReference env in
            let* transaction :=
              TransactionRepository_create
                {| td_account_id := op_account_id withdrawalData;
                   td_amount := op_amount withdrawalData;
                   td_txn_type := WITHDRAWAL;
                   td_counterparty := op_counterparty withdrawalData;
                   td_reference := reference;
                   td_description := op_description withdrawalData |} in
            ret {| r_success := true;
                   r_transaction := transaction;
                   r_new_balance := newBalance |}
        end
  end.

(** The callback processTransfer hands to db.transaction (lines 132-199). *)
Definition transfer_unit (transferData : TransferData) (env : Env) : M TransferResult :=
  let amount := tr_amount transferData in
  let* fromAccount := lockForUpdate (from_account_id transferData) in
  let* toAccount := lockForUpdate (to_account_id transferData) in
  match fromAccount with
  | None => throw (JsError "Source account not found")
  | Some fromAccount =>
  match toAccount with
  | None => throw (JsError "Destination account not found")
  | Some toAccount =>
      if negb (isActive fromAccount) then throw (JsError "Source account is not active")
      else if negb (isActive toAccount) then throw (JsError "Destination account is not active")
      else
        match canDebit fromAccount amount with
        | Denied reason => throw (JsError ("Transfer failed: " +:+ reason))
        | Allowed debitBalance =>
        match canCredit toAccount amount with
        | Denied reason => throw (JsError ("Transfer failed: " +:+ reason))
        | Allowed creditBalance =>
            let reference := generateReference env in
            let debitTransaction :=
              {| td_account_id := from_account_id transferData;
                 td_amount := amount;
                 td_txn_type := TRANSFER_OUT;
                 td_counterparty := Some ("Transfer to " +:+ account_number toAccount);
                 td_reference := reference +:+ "-OUT";
                 td_description := tr_description transferData |} in
            let creditTransaction :=
              {| td_account_id := to_account_id transferData;
                 td_amount := amount;
                 td_txn_type := TRANSFER_IN;
                 td_counterparty := Some ("Transfer from " +:+ account_number fromAccount);
                 td_reference := reference +:+ "-IN";
                 td_description := tr_description transferData |} in
            let* transactions := createMultiple [debitTransaction; creditTransaction] in
            match transactions with
            | debit :: credit :: _ =>
                ret {| success := true;
                       transfer_reference := reference;
                       debit_transaction := debit;
                       credit_transaction := credit;
                       from_account_new_balance := debitBalance;
                       to_account_new_balance := creditBalance |}
            | _ => throw (JsError "Cannot read properties of undefined (reading 'toJSON')")
            end
        end
        end
  end
  end.

(** if (idempotencyKey): null, undefined and the empty string are falsy. *)
Definition truthy_key (idempotencyKey : option string) : option string :=
  match idempotencyKey with
  | Some EmptyString => None
  | other => other
  end.

(** How the idempotency block (lines 110-128) ends: with a return of the
    stored response, or by falling through to the try block. *)
Inductive Gate :=
| ReturnStored (response : option TransferResult)
| Proceed.

Definition idempotency_gate (transferData : TransferData)
    (idempotencyKey : option string) (env : Env) : M Gate :=
  match truthy_key idempotencyKey with
  | None => ret Proceed
  | Some key =>
      let* keyStatus := checkKey key env in
      if ks_exists keyStatus then
        if ks_expired keyStatus then throw (JsError "Idempotency key has expired")
        else if ks_processed keyStatus then ret (ReturnStored (ks_response keyStatus))
        else ret Proceed
      else
        let* _ := IdempotencyKeyRepository_create key transferData env in
        ret Proceed
  end.

(** The try block (lines 130-211) and its catch (lines 212-218). *)
Definition transfer_attempt (transferData : TransferData)
    (idempotencyKey : option string) (env : Env) : M (option TransferResult) :=
  try_catch
    (let* result := db_transaction (transfer_unit transferData env) in
     match truthy_key idempotencyKey with
     | Some key =>
         let* _ := updateWithResult key (txn_id (debit_transaction result)) result in
         ret (Some result)
     | None => ret (Some result)
     end)
    (fun error =>
       match truthy_key idempotencyKey with
       | Some key =>
           let* _ := IdempotencyKeyRepository_delete key in
           throw error
       | None => throw error
       end).

(** processTransfer returns the result of the transfer, or what the
    idempotency record holds as response (null when it holds none). *)
Definition processTransfer (transferData : TransferData)
    (idempotencyKey : option string) (env : Env) : M (option TransferResult) :=
  let* gate := idempotency_gate transferData idempotencyKey env in
  match gate with
  | ReturnStored response => ret response
  | Proceed => transfer_attempt transferData idempotencyKey env
  end.

(* ===================================================================== *)
(** ** A concrete database *)
(* ===================================================================== *)

(** Accounts 1, 2, 3, 16 and 17 of database/seed.js. *)
Definition account_1 : AccountProjection :=
  {| acc_account_id := 1; account_number := "688833778006";
     account_type := SALARY; current_balance := 49871554; status := ACTIVE |}.
Definition account_2 : AccountProjection :=
  {| acc_account_id := 2; account_number := "711203034246";
     account_type := CURRENT; current_balance := 8582184; status := FROZEN |}.
Definition account_3 : AccountProjection :=
  {| acc_account_id := 3; account_number := "526468425099";
     account_type := SALARY; current_balance := 31983041; status := ACTIVE |}.
Definition account_16 : AccountProjection :=
  {| acc_account_id := 16; account_number := "123456789016";
     account_type := SAVINGS; current_balance := 25000000; status := ACTIVE |}.
Definition account_17 : AccountProjection :=
  {| acc_account_id := 17; account_number := "123456789017";
     account_type := CURRENT; current_balance := 15000000; status := ACTIVE |}.

Definition seed_accounts : gmap Z AccountProjection :=
  <[1 := account_1]> (<[2 := account_2]> (<[3 := account_3]>
    (<[16 := account_16]> (<[17 := account_17]> ∅)))).

(** 2026-11-01T00:00:00Z, and a draw that prints as "0.4fzyo82mvyr". *)
Definition env_1 : Env :=
  {| clock := 1793491200000;
     today := {| year := 2026; month := 11; day := 1 |};
     random_digits := [4; 15; 35; 34; 24; 8; 2; 22; 31; 34; 27]%nat |}.

(** The same instant with the draw 0.5, which prints as "0.i". *)
Definition env_half : Env :=
  {| clock := 1793491200000;
     today := {| year := 2026; month := 11; day := 1 |};
     random_digits := [18]%nat |}.

(** The first sample key of seedIdempotencyKeys: created without txn_id and
    without response, expiring 24 hours after seeding (here: seeded one hour
    before [env_1]). *)
Definition sample_key_001 : IdempotencyKey :=
  {| ik_txn_id := None;
     request_body := {| from_account_id := 1; to_account_id := 3;
                        tr_amount := 100000; tr_description := Some "Test transfer" |};
     response_body := None;
     expires_at := 1793491200000 + 23 * 60 * 60 * 1000 |}.

(** The seeded accounts and sample key, before any ledger entry. *)
Definition seed_db : Database :=
  {| account_projections := seed_accounts;
     transactions := [];
     idempotency_keys := {[ "test-transfer-001" := sample_key_001 ]};
     txn_id_seq := 1;
     lock_trace := [] |}.

(** Transfer 1000.00 from account 1 to account 3. *)
Definition transfer_1_3 : TransferData :=
  {| from_account_id := 1; to_account_id := 3;
     tr_amount := 100000; tr_description := Some "Test transfer" |}.

(** Transfer 1000.00 from account 3 to account 1. *)
Definition transfer_3_1 : TransferData :=
  {| from_account_id := 3; to_account_id := 1;
     tr_amount := 100000; tr_description := None |}.

(** One second after [env_1], with a draw that prints as "0.9u1hpc38". *)
Definition env_2 : Env :=
  {| clock := 1793491200000 + 1000;
     today := {| year := 2026; month := 11; day := 1 |};
     random_digits := [9; 30; 1; 17; 25; 12; 3; 8]%nat |}.

(** One minute after [env_1], with a draw that prints as "0.4fzyo8u1": the
    same first six digits as the draw of [env_1]. *)
Definition env_same_prefix : Env :=
  {| clock := 1793491200000 + 60 * 1000;
     today := {| year := 2026; month := 11; day := 1 |};
     random_digits := [4; 15; 35; 34; 24; 8; 30; 1]%nat |}.

(** Two days after [env_1], with the same draw. *)
Definition env_late : Env :=
  {| clock := 1793491200000 + 48 * 60 * 60 * 1000;
     today := {| year := 2026; month := 11; day := 3 |};
     random_digits := [4; 15; 35; 34; 24; 8; 2; 22; 31; 34; 27]%nat |}.

(** Transfer 1000.00 from account 99, which has no row, to account 3. *)
Definition transfer_99_3 : TransferData :=
  {| from_account_id := 99; to_account_id := 3;
     tr_amount := 100000; tr_description := None |}.

(** Deposit 50.00 into account 16. *)
Definition deposit_16 : OperationData :=
  {| op_account_id := 16; op_amount := 5000;
     op_counterparty := Some "Cash"; op_description := None |}.

(** Withdraw 50.00 from account 16 (SAVINGS, 250000.00). *)
Definition withdrawal_16 : OperationData :=
  {| op_account_id := 16; op_amount := 5000;
     op_counterparty := Some "ATM"; op_description := None |}.

(** Withdraw 250000.01 from account 16 (SAVINGS, 250000.00). *)
Definition withdrawal_16_over : OperationData :=
  {| op_account_id := 16; op_amount := 25000001;
     op_counterparty := Some "ATM"; op_description := None |}.

(** Two accounts just opened: no balance, no ledger entry. *)
Definition opened_db : Database :=
  {| account_projections :=
       <[16 := with_balance account_16 0]> (<[17 := with_balance account_17 0]> ∅);
     transactions := [];
     idempotency_keys := ∅;
     txn_id_seq := 1;
     lock_trace := [] |}.

(** [seed_db] after the withdrawal of 50.00 from account 16 at [env_1]: its
    ledger holds the reference generated from [env_1]. *)
Definition seed_db_after_withdrawal : Database :=
  (processWithdrawal withdrawal_16 env_1 seed_db).2.

(* ===================================================================== *)
(** ** Vocabulary of the properties *)
(* ===================================================================== *)

(** The amount of a ledger entry with the sign of its kind: DEPOSIT and
    TRANSFER_IN are added, WITHDRAWAL and TRANSFER_OUT are subtracted. *)
Definition signed_amount (t : Transaction) : Z :=
  match txn_type t with
  | DEPOSIT | TRANSFER_IN => amount t
  | WITHDRAWAL | TRANSFER_OUT => - amount t
  end.

(** The signed sum of the ledger entries of one account. *)
Fixpoint ledger_sum (a : Z) (txns : list Transaction) : Z :=
  match txns with
  | [] => 0
  | t :: rest =>
      (if account_id t =? a then signed_amount t else 0) + ledger_sum a rest
  end.

(** Every account's balance is the signed sum of its ledger entries. *)
Definition balanced (db : Database) : Prop :=
  ∀ a acct, account_projections db !! a = Some acct →
            current_balance acct = ledger_sum a (transactions db).

(** By how much the balance of an account differs from the signed sum of its
    entries (an account may come with a balance and no entries). *)
Definition offset (db : Database) (a : Z) : option Z :=
  (λ acct, current_balance acct - ledger_sum a (transactions db))
    <$> account_projections db !! a.

(** No ledger entry and no balance of [db'] differs from [db]. *)
Definition same_ledger (db db' : Database) : Prop :=
  transactions db' = transactions db
  ∧ account_projections db' = account_projections db.

(** The INSERT of [new] into transactions succeeds on [db]. *)
Definition ledger_accepts (new : TxnData) (db : Database) : bool :=
  fits_varchar 255 (td_counterparty new)
  && fits_varchar 50 (Some (td_reference new))
  && fits_decimal_15_2 (td_amount new)
  && from_option fits_decimal_15_2 true
       (current_balance <$>
          update_account_balance new (account_projections db) !! td_account_id new)
  && (0 <? td_amount new)
  && Pattern.reference (td_reference new)
  && negb (reference_used (td_reference new) (transactions db))
  && bool_decide (is_Some (account_projections db !! td_account_id new)).

(** The ledger entry a withdrawal asks for. *)
Definition withdrawal_entry (w : OperationData) (env : Env) : TxnData :=
  {| td_account_id := op_account_id w;
     td_amount := op_amount w;
     td_txn_type := WITHDRAWAL;
     td_counterparty := op_counterparty w;
     td_reference := generateReference env;
     td_description := op_description w |}.

(** A list of account ids in ascending order. *)
Fixpoint ascending (l : list Z) : bool :=
  match l with
  | a :: (b :: _) as rest => (a <=? b) && ascending rest
  | _ => true
  end.

(** The locks a call acquired: what it added to the lock trace. *)
Definition locks_acquired (before after : Database) : list Z :=
  drop (List.length (lock_trace before)) (lock_trace after).

(** The ledger entry [row] is the one asked for by [new]. *)
Definition entry_of (new : TxnData) (row : Transaction) : Prop :=
  account_id row = td_account_id new
  ∧ amount row = td_amount new
  ∧ txn_type row = td_txn_type new
  ∧ reference row = td_reference new.

(** The dual entry of a transfer: a TRANSFER_OUT on the source and a
    TRANSFER_IN on the destination, of the amount of the transfer, with the
    references [<ref>-OUT] and [<ref>-IN] of one generated reference. *)
Definition transfer_batch (td : TransferData) (l : list TxnData) : Prop :=
  ∃ ref d c,
    l = [d; c]
    ∧ td_account_id d = from_account_id td ∧ td_txn_type d = TRANSFER_OUT
    ∧ td_amount d = tr_amount td ∧ td_reference d = ref +:+ "-OUT"
    ∧ td_account_id c = to_account_id td ∧ td_txn_type c = TRANSFER_IN
    ∧ td_amount c = tr_amount td ∧ td_reference c = ref +:+ "-IN".

(** Both legs of the transfer [td] are in the ledger of [db'], and nothing
    else is new in it. *)
Definition both_legs (td : TransferData) (db db' : Database) : Prop :=
  ∃ l rows, transfer_batch td l
            ∧ Forall2 entry_of l rows
            ∧ transactions db' = transactions db ++ rows.

(** The entry is the last of the ledger and records the balance its account
    has in [db]. *)
Definition records_balance (t : Transaction) (db : Database) : Prop :=
  last (transactions db) = Some t
  ∧ is_Some (balance_after t)
  ∧ balance_after t = current_balance <$> account_projections db !! account_id t.

(** The rows the callback of a transfer locks, in order: the source row, then
    the destination row, as far as they exist. *)
Definition transfer_locks (td : TransferData) (db : Database) : list Z :=
  match account_projections db !! from_account_id td with
  | None => []
  | Some _ =>
      from_account_id td ::
      match account_projections db !! to_account_id td with
      | None => []
      | Some _ => [to_account_id td]
      end
  end.

(** What processTransfer can throw. *)
Inductive transfer_error : Error → Prop :=
| ue_lock : transfer_error (JsError "Account projection not found")
| ue_source_inactive : transfer_error (JsError "Source account is not active")
| ue_destination_inactive : transfer_error (JsError "Destination account is not active")
| ue_rejected reason : transfer_error (JsError ("Transfer failed: " +:+ reason))
| ue_validation errors : transfer_error (validation_failed errors)
| ue_database code : transfer_error (PgError code)
| ue_expired : transfer_error (JsError "Idempotency key has expired")
| ue_key_exists : transfer_error (JsError "Idempotency key already exists")
| ue_key_not_found : transfer_error (JsError "Idempotency key not found").

(** [m] relates the database it starts from to the one it leaves, whatever
    it returns or throws. *)
Definition keeps {A} (R : relation Database) (m : M A) : Prop :=
  ∀ db r db', m db = (r, db') → R db db'.

(** Relations between the database before and after a call. *)
Definition same_offsets : relation Database :=
  λ db db', ∀ a, offset db' a = offset db a.
Definition same_keys : relation Database :=
  λ db db', idempotency_keys db' = idempotency_keys db.
Definition same_locks : relation Database :=
  λ db db', lock_trace db' = lock_trace db.

(* ===================================================================== *)
(** ** The rest of the reference generator *)
(* ===================================================================== *)

(** The decimal digits at the head of [s], read on top of [acc]. *)
Fixpoint parse_digits (s : string) (acc : Z) : Z :=
  match s with
  | String c s' =>
      if Chars.is_digit c
      then parse_digits s' (10 * acc + (Z.of_nat (Chars.code c) - 48))
      else acc
  | EmptyString => acc
  end.

(** parseInt(s) for a string without blanks, sign or radix prefix in front
    (its caller hands it pieces of a checked reference): the number written by
    the leading decimal digits, NaN ([None]) when the string starts with none. *)
Definition parseInt (s : string) : option Z :=
  match s with
  | String c _ => if Chars.is_digit c then Some (parse_digits s 0) else None
  | EmptyString => None
  end.

(** The arguments of new Date(year, month, day); [None] is NaN. *)
Record DateArgs := {
  da_year : option Z;
  da_month : option Z;
  da_day : option Z
}.

(** extractDateFromReference: null for a reference that is not well formed,
    else the Date built from the digits after REF, with the month 0-indexed.
    The Date is kept as the arguments of its constructor. *)
Definition extractDateFromReference (reference : string) : option DateArgs :=
  if negb (isValidReference reference) then None
  else
    let dateStr := Str.slice 3 11 reference in
    let year := parseInt (Str.slice 0 4 dateStr) in
    let month := (λ m, m - 1) <$> parseInt (Str.slice 4 6 dateStr) in
    let day := parseInt (Str.slice 6 8 dateStr) in
    Some {| da_year := year; da_month := month; da_day := day |}.

(* ===================================================================== *)
(** ** The rest of the repositories *)
(* ===================================================================== *)

(** TransactionRepository.findById: the row with this txn_id (the primary
    key), or null. *)
Definition TransactionRepository_findById (txnId : Z) : M (option Transaction) :=
  fun db => (Ok (List.find (fun t => txn_id t =? txnId) (transactions db)), db).

(** TransactionRepository.findByReference: the row with this reference (a
    unique column), or null. *)
Definition findByReference (r : string) : M (option Transaction) :=
  fun db => (Ok (List.find (fun t => String.eqb (reference t) r) (transactions db)), db).

(** TransactionRepository.getTransactionCount: SELECT COUNT of the rows of
    the account. *)
Definition getTransactionCount (accountId : Z) : M Z :=
  fun db =>
    (Ok (Z.of_nat (List.length
                     (List.filter (fun t => account_id t =? accountId) (transactions db)))),
     db).

(** TransactionRepository.delete: DELETE FROM transactions WHERE txn_id = $1.
    A row an idempotency key points to cannot go (foreign key of
    idempotency_keys.txn_id).  No trigger runs: the balance stays. *)
Definition TransactionRepository_delete (txnId : Z) : M bool :=
  fun db =>
    if has_txn_id txnId (transactions db) then
      if bool_decide (map_Exists (λ _ row, ik_txn_id row = Some txnId) (idempotency_keys db))
      then (Err (PgError "23503"), db)
      else (Ok true,
            set_transactions_accounts db (account_projections db)
              (List.filter (fun t => negb (txn_id t =? txnId)) (transactions db)))
    else (Ok false, db).

Definition set_accounts (db : Database)
    (accounts : gmap Z AccountProjection) : Database :=
  set_transactions_accounts db accounts (transactions db).

Definition with_status (a : AccountProjection) (s : AccountStatus) : AccountProjection :=
  {| acc_account_id := acc_account_id a;
     account_number := account_number a;
     account_type := account_type a;
     current_balance := current_balance a;
     status := s |}.

(** AccountProjectionRepository.updateBalance: throws when no row is
    updated. *)
Definition updateBalance (accountId newBalance : Z) : M AccountProjection :=
  fun db =>
    match account_projections db !! accountId with
    | None => (Err (JsError "Account projection not found"), db)
    | Some row =>
        if fits_decimal_15_2 newBalance then
          let row' := with_balance row newBalance in
          (Ok row', set_accounts db (<[accountId := row']> (account_projections db)))
        else (Err (PgError "22003"), db)
    end.

(** AccountProjectionRepository.updateStatus.  The status is one of the
    three by construction, so the check for an invalid status cannot fail. *)
Definition updateStatus (accountId : Z) (s : AccountStatus) : M AccountProjection :=
  fun db =>
    match account_projections db !! accountId with
    | None => (Err (JsError "Account projection not found"), db)
    | Some row =>
        let row' := with_status row s in
        (Ok row', set_accounts db (<[accountId := row']> (account_projections db)))
    end.

(** AccountProjectionRepository.isActive: false when there is no row. *)
Definition AccountProjectionRepository_isActive (accountId : Z) : M bool :=
  fun db =>
    (Ok match account_projections db !! accountId with
        | None => false
        | Some row => match status row with ACTIVE => true | _ => false end
        end, db).

(** AccountProjectionRepository.getBalance: null when there is no row. *)
Definition getBalance (accountId : Z) : M (option Z) :=
  fun db => (Ok (current_balance <$> account_projections db !! accountId), db).

(** AccountProjectionRepository.delete: DELETE FROM account_projections
    WHERE account_id = $1.  A row that ledger entries point to cannot go
    (foreign key of transactions.account_id). *)
Definition AccountProjectionRepository_delete (accountId : Z) : M bool :=
  fun db =>
    match account_projections db !! accountId with
    | None => (Ok false, db)
    | Some _ =>
        if existsb (fun t => account_id t =? accountId) (transactions db)
        then (Err (PgError "23503"), db)
        else (Ok true, set_accounts db (delete accountId (account_projections db)))
    end.

(** IdempotencyKeyRepository.findByKey: the record or null. *)
Definition findByKey (key : string) : M (option IdempotencyKey) :=
  fun db => (Ok (idempotency_keys db !! key), db).



(** IdempotencyKeyRepository.cleanupExpired:
    DELETE FROM idempotency_keys WHERE expires_at < CURRENT_TIMESTAMP,
    returning the number of rows deleted. *)
Definition cleanupExpired (env : Env) : M Z :=
  fun db =>
    let keys := idempotency_keys db in
    (Ok (Z.of_nat (size (filter (λ kv, expires_at kv.2 < clock env) keys))),
     set_idempotency_keys db (filter (λ kv, ¬ expires_at kv.2 < clock env) keys)).

(** The object getStats returns. *)
Record KeyStats := {
  total_keys : Z;
  processed_keys : Z;
  expired_keys : Z;
  pending_keys : Z
}.

(** IdempotencyKeyRepository.getStats *)
Definition getStats (env : Env) : M KeyStats :=
  fun db =>
    let keys := idempotency_keys db in
    let total := Z.of_nat (size keys) in
    let processed := Z.of_nat (size (filter (λ kv, is_Some (ik_txn_id kv.2)) keys)) in
    let expired := Z.of_nat (size (filter (λ kv, expires_at kv.2 < clock env) keys)) in
    (Ok {| total_keys := total;
           processed_keys := processed;
           expired_keys := expired;
           pending_keys := total - processed |}, db).

(* ===================================================================== *)
(** ** The rest of the service, and the controller of transfers *)
(* ===================================================================== *)

(** TransactionService.getTransactionById *)
Definition getTransactionById (txnId : Z) : M Transaction :=
  let* transaction := TransactionRepository_findById txnId in
  match transaction with
  | None => throw (JsError "Transaction not found")
  | Some t => ret t
  end.

(** TransactionService.validateTransferData: the error messages, in the
    order they are pushed.  1000000 is 100000000 hundredths. *)
Definition validateTransferData (td : TransferData) : list string :=
  (if from_account_id td =? 0 then ["Valid source account ID is required"] else []) ++
  (if to_account_id td =? 0 then ["Valid destination account ID is required"] else []) ++
  (if from_account_id td =? to_account_id td
   then ["Source and destination accounts cannot be the same"] else []) ++
  (if tr_amount td <=? 0 then ["Amount must be positive"] else []) ++
  (if 100000000 <? tr_amount td then ["Amount exceeds maximum transfer limit"] else []) ++
  (match tr_description td with
   | Some d => if Nat.ltb 255 (String.length d)
               then ["Description must be less than 255 characters"] else []
   | None => []
   end).

(** What ApiResponse.success and ApiResponse.validationError build; the
    timestamp is the clock reading (its ISO text in the source). *)
Record ApiResponse := {
  api_success : bool;
  api_message : string;
  api_data : option (option TransferResult);
  api_errors : option (list string);
  api_timestamp : Z;
  api_statusCode : Z
}.

Definition ApiResponse_success (data : option TransferResult) (message : string)
    (statusCode : Z) (env : Env) : ApiResponse :=
  {| api_success := true; api_message := message; api_data := Some data;
     api_errors := None; api_timestamp := clock env; api_statusCode := statusCode |}.

Definition ApiResponse_validationError (errors : list string) (env : Env) : ApiResponse :=
  {| api_success := false; api_message := "Validation failed"; api_data := None;
     api_errors := Some errors; api_timestamp := clock env; api_statusCode := 400 |}.

(** How a controller method ends: res.status(code).json(body), or
    next(error). *)
Inductive HttpOutcome :=
| Responded (statusCode : Z) (body : ApiResponse)
| Forwarded (error : Error).

(** TransactionController.transfer (logging left out). *)
Definition TransactionController_transfer (transferData : TransferData)
    (idempotency_key : option string) (env : Env) (db : Database)
    : HttpOutcome * Database :=
  match validateTransferData transferData with
  | [] =>
      match processTransfer transferData idempotency_key env db with
      | (Ok result, db') =>
          let response :=
            ApiResponse_success result "Transfer processed successfully" 201 env in
          (Responded (api_statusCode response) response, db')
      | (Err error, db') => (Forwarded error, db')
      end
  | errors =>
      let response := ApiResponse_validationError errors env in
      (Responded (api_statusCode response) response, db)
  end.

(* ===================================================================== *)
(** ** Vocabulary of the further properties *)
(* ===================================================================== *)

(** No two ledger entries share a reference. *)
Definition references_unique (db : Database) : Prop :=
  NoDup (reference <$> transactions db).

(** Every ledger entry has an amount above zero and a well-formed
    reference. *)
Definition entries_checked (db : Database) : Prop :=
  Forall (λ t, 0 < amount t ∧ Pattern.reference (reference t) = true) (transactions db).

(** Every ledger entry belongs to an account that has a row. *)
Definition entries_have_account (db : Database) : Prop :=
  Forall (λ t, is_Some (account_projections db !! account_id t)) (transactions db).

(** The txn_ids grow along the ledger and are below the next value of the
    sequence. *)
Definition ids_in_sequence (db : Database) : Prop :=
  Forall (λ t, txn_id t < txn_id_seq db) (transactions db)
  ∧ StronglySorted (λ t u, txn_id t < txn_id u) (transactions db).



(** [P] holds after the call when it holds before. *)
Definition preserves (P : Database → Prop) : relation Database :=
  λ db db', P db → P db'.

(** The sequence does not go back, and the ids stay in sequence. *)
Definition sequence_kept : relation Database :=
  λ db db', txn_id_seq db ≤ txn_id_seq db' ∧ (ids_in_sequence db → ids_in_sequence db').


(** The tables are the same. *)
Definition same_tables (db db' : Database) : Prop :=
  same_ledger db db' ∧ same_keys db db'.

(** [P] holds in the database left by every writing operation of the service
    and of the transaction repository, run on [db] with any input, whether it
    returns or throws. *)
Definition after_every_operation (P : Database → Prop) (db : Database) : Prop :=
  (∀ d env, P (processDeposit d env db).2)
  ∧ (∀ w env, P (processWithdrawal w env db).2)
  ∧ (∀ td key env, P (processTransfer td key env db).2)
  ∧ (∀ l, P (createMultiple l db).2)
  ∧ (∀ d, P (TransactionRepository_create d db).2).

(** The ledger entry a deposit asks for. *)
Definition deposit_entry (d : OperationData) (env : Env) : TxnData :=
  {| td_account_id := op_account_id d;
     td_amount := op_amount d;
     td_txn_type := DEPOSIT;
     td_counterparty := op_counterparty d;
     td_reference := generateReference env;
     td_description := op_description d |}.


(** [P] looks at the ledger and the account rows only. *)
Definition tables_only (P : Database → Prop) : Prop :=
  ∀ db db', same_ledger db db' → P db → P db'.

(* ===================================================================== *)
(** ** Atomic units and the clients they run on *)
(* ===================================================================== *)

(** The definitions above run every statement against one database.  The
    source says more: on which client a statement is issued.  db.transaction
    hands its callback a client.  processTransfer passes that client to
    lockForUpdate (TransactionService.js, lines 134-135), which queries on it
    ([client || db]); it passes none to createMultiple (line 186), which
    calls db.transaction itself and queries on the client of that call
    (TransactionRepository.js, lines 165 and 191).  The idempotency
    repository queries with db.query.  The definitions of this module follow
    the same source lines and keep the client of every statement. *)
Module Clients.

(** A statement issued on the client of an atomic unit. *)
Inductive Statement :=
| BEGIN (client : nat)
| SELECT_FOR_UPDATE (client : nat) (accountId : Z)
| INSERT (client : nat) (reference : string)
| COMMIT (client : nat)
| ROLLBACK (client : nat).

(** A ledger row a client has inserted: the values of the INSERT and the row
    it returned. *)
Definition Write : Type := TxnData * Transaction.

(** Modelled from the spec: the connections behind database/connection.js,
    which is not among the sources.  [committed] is what is visible to every
    client; [uncommitted] holds, per client with a unit in progress, the rows
    it has inserted and not yet committed; [clients] counts the clients
    handed out; [statements] lists what was issued on them, in order.  The
    txn_id sequence and the lock trace are kept in [committed]: a sequence
    value is taken for all clients at once, and the trace is a record of what
    happened.  Waiting for a lock is not modelled. *)
Record Session := {
  committed : Database;
  uncommitted : gmap nat (list Write);
  clients : nat;
  statements : list Statement
}.


Definition MC (A : Type) : Type := Session → Result A * Session.

Definition ret {A} (a : A) : MC A := fun s => (Ok a, s).
Definition throw {A} (e : Error) : MC A := fun s => (Err e, s).

Definition bind {A B} (m : MC A) (k : A → MC B) : MC B :=
  fun s =>
    match m s with
    | (Ok a, s') => k a s'
    | (Err e, s') => (Err e, s')
    end.

Definition try_catch {A} (m : MC A) (handler : Error → MC A) : MC A :=
  fun s =>
    match m s with
    | (Ok a, s') => (Ok a, s')
    | (Err e, s') => handler e s'
    end.

Notation "'let!' x ':=' m 'in' k" := (bind m (fun x => k))
  (at level 10, x name, m at level 100, k at level 200).

Definition set_committed (s : Session) (db : Database) : Session :=
  {| committed := db;
     uncommitted := uncommitted s;
     clients := clients s;
     statements := statements s |}.

Definition issue (st : Statement) (s : Session) : Session :=
  {| committed := committed s;
     uncommitted := uncommitted s;
     clients := clients s;
     statements := statements s ++ [st] |}.

Definition writes_of (client : nat) (s : Session) : list Write :=
  default [] (uncommitted s !! client).

Definition add_write (client : nat) (w : Write) (s : Session) : Session :=
  {| committed := committed s;
     uncommitted := <[client := writes_of client s ++ [w]]> (uncommitted s);
     clients := clients s;
     statements := statements s |}.

(** The effect of an inserted row on the tables: the row is appended and the
    trigger has moved the balance of its account. *)
Definition write (db : Database) (w : Write) : Database :=
  set_transactions_accounts db
    (update_account_balance w.1 (account_projections db))
    (transactions db ++ [w.2]).

(** What [client] sees: what is committed, and its own writes. *)
Definition view (client : nat) (s : Session) : Database :=
  foldl write (committed s) (writes_of client s).

(** db.query: a statement on the pool, committed when it returns. *)
Definition on_pool {A} (query : M A) : MC A :=
  fun s =>
    match query (committed s) with
    | (r, db) => (r, set_committed s db)
    end.

Definition commit (client : nat) (s : Session) : Session :=
  {| committed := view client s;
     uncommitted := delete client (uncommitted s);
     clients := clients s;
     statements := statements s ++ [COMMIT client] |}.

Definition rollback (client : nat) (s : Session) : Session :=
  {| committed := committed s;
     uncommitted := delete client (uncommitted s);
     clients := clients s;
     statements := statements s ++ [ROLLBACK client] |}.

Definition take_client (s : Session) : Session :=
  {| committed := committed s;
     uncommitted := uncommitted s;
     clients := S (clients s);
     statements := statements s |}.

(** Modelled from the spec: [db.transaction] of database/connection.js, which
    is not among the sources; the spec calls it the atomic unit.  Its callers
    show that it hands the callback a client
    ([db.transaction(async (client) => ...)]).  Every call is taken to begin
    a unit of its own on a client of its own: when the callback returns,
    COMMIT makes what was written on that client visible; when it throws,
    ROLLBACK discards what was written on that client and the error is
    thrown on. *)
Definition db_transaction {A} (callback : nat → MC A) : MC A :=
  fun s =>
    let client := S (clients s) in
    match callback client (issue (BEGIN client) (take_client s)) with
    | (Ok a, s') => (Ok a, commit client s')
    | (Err e, s') => (Err e, rollback client s')
    end.

(** lockForUpdate(accountId, client): SELECT ... FOR UPDATE issued on
    [client]. *)
Definition lockForUpdate (accountId : Z) (client : nat)
    : MC (option AccountProjection) :=
  fun s =>
    let s' := issue (SELECT_FOR_UPDATE client accountId) s in
    match account_projections (view client s) !! accountId with
    | None => (Err (JsError "Account projection not found"), s')
    | Some row => (Ok (Some row), set_committed s' (record_lock accountId (committed s)))
    end.

(** client.query(query, values) of createMultiple: the INSERT issued on
    [client].  The statement takes its sequence value whether it succeeds or
    not; the row it inserts stays with the client until COMMIT. *)
Definition client_query (new : TxnData) (client : nat) : MC Transaction :=
  fun s =>
    let s' := set_committed (issue (INSERT client (td_reference new)) s)
                            (next_txn_id (committed s)) in
    match insert_transaction new (view client s) with
    | (Ok row, _) => (Ok row, add_write client (new, row) s')
    | (Err e, _) => (Err e, s')
    end.

Fixpoint createMultiple_loop (transactionsData : list TxnData) (client : nat)
    : MC (list Transaction) :=
  match transactionsData with
  | [] => ret []
  | txnData :: rest =>
      match Transaction_validate txnData with
      | [] =>
          let! row := client_query txnData client in
          let! rows := createMultiple_loop rest client in
          ret (row :: rows)
      | errors => throw (validation_failed errors)
      end
  end.

(** createMultiple takes no client: it opens a unit of its own. *)
Definition createMultiple (transactionsData : list TxnData) : MC (list Transaction) :=
  db_transaction (createMultiple_loop transactionsData).

(** The callback processTransfer hands to db.transaction (lines 132-199),
    with the client it is given. *)
Definition transfer_unit (transferData : TransferData) (env : Env) (client : nat)
    : MC TransferResult :=
  let amount := tr_amount transferData in
  let! fromAccount := lockForUpdate (from_account_id transferData) client in
  let! toAccount := lockForUpdate (to_account_id transferData) client in
  match fromAccount with
  | None => throw (JsError "Source account not found")
  | Some fromAccount =>
  match toAccount with
  | None => throw (JsError "Destination account not found")
  | Some toAccount =>
      if negb (isActive fromAccount) then throw (JsError "Source account is not active")
      else if negb (isActive toAccount) then throw (JsError "Destination account is not active")
      else
        match canDebit fromAccount amount with
        | Denied reason => throw (JsError ("Transfer failed: " +:+ reason))
        | Allowed debitBalance =>
        match canCredit toAccount amount with
        | Denied reason => throw (JsError ("Transfer failed: " +:+ reason))
        | Allowed creditBalance =>
            let reference := generateReference env in
            let debitTransaction :=
              {| td_account_id := from_account_id transferData;
                 td_amount := amount;
                 td_txn_type := TRANSFER_OUT;
                 td_counterparty := Some ("Transfer to " +:+ account_number toAccount);
                 td_reference := reference +:+ "-OUT";
                 td_description := tr_description transferData |} in
            let creditTransaction :=
              {| td_account_id := to_account_id transferData;
                 td_amount := amount;
                 td_txn_type := TRANSFER_IN;
                 td_counterparty := Some ("Transfer from " +:+ account_number fromAccount);
                 td_reference := reference +:+ "-IN";
                 td_description := tr_description transferData |} in
            let! transactions := createMultiple [debitTransaction; creditTransaction] in
            match transactions with
            | debit :: credit :: _ =>
                ret {| success := true;
                       transfer_reference := reference;
                       debit_transaction := debit;
                       credit_transaction := credit;
                       from_account_new_balance := debitBalance;
                       to_account_new_balance := creditBalance |}
            | _ => throw (JsError "Cannot read properties of undefined (reading 'toJSON')")
            end
        end
        end
  end
  end.

(** The try block (lines 130-211) and its catch (lines 212-218). *)
Definition transfer_attempt (transferData : TransferData)
    (idempotencyKey : option string) (env : Env) : MC (option TransferResult) :=
  try_catch
    (let! result := db_transaction (transfer_unit transferData env) in
     match truthy_key idempotencyKey with
     | Some key =>
         let! _ := on_pool (updateWithResult key (txn_id (debit_transaction result))
                                             result) in
         ret (Some result)
     | None => ret (Some result)
     end)
    (fun error =>
       match truthy_key idempotencyKey with
       | Some key =>
           let! _ := on_pool (IdempotencyKeyRepository_delete key) in
           throw error
       | None => throw error
       end).

Definition processTransfer (transferData : TransferData)
    (idempotencyKey : option string) (env : Env) : MC (option TransferResult) :=
  let! gate := on_pool (idempotency_gate transferData idempotencyKey env) in
  match gate with
  | ReturnStored response => ret response
  | Proceed => transfer_attempt transferData idempotencyKey env
  end.



End Clients.




(* ===================================================================== *)
(** * Properties *)
(* ===================================================================== *)

(** ** Strings and the reference pattern *)

Section StringFacts.

Lemma append_nil (b : string) : "" +:+ b = b.
Proof. reflexivity. Qed.

Lemma append_cons c (a b : string) : String c a +:+ b = String c (a +:+ b).
Proof. reflexivity. Qed.

Lemma append_empty_r (a : string) : a +:+ "" = a.
Proof.
  induction a as [|c a IH]; [done |]. by rewrite append_cons, IH.
Qed.

Lemma append_assoc (a b c : string) : (a +:+ b) +:+ c = a +:+ b +:+ c.
Proof.
  induction a as [|x a IH]; [done |]. by rewrite !append_cons, IH.
Qed.

Lemma length_append (a b : string) :
  String.length (a +:+ b) = (String.length a + String.length b)%nat.
Proof.
  induction a as [|c a IH]; [done |]. rewrite append_cons. simpl. by rewrite IH.
Qed.

Lemma all_append p (a b : string) :
  Str.all p (a +:+ b) = Str.all p a && Str.all p b.
Proof.
  induction a as [|c a IH]; [done |].
  rewrite append_cons. simpl. by rewrite IH, andb_assoc.
Qed.

(** When a string ends in [suf] and also ends in a piece [c] that is at
    least as long, [c] itself ends in [suf]. *)
Lemma append_suffix (x suf P c : string) :
  x +:+ suf = P +:+ c →
  (String.length suf ≤ String.length c)%nat →
  ∃ x', c = x' +:+ suf.
Proof.
  revert P. induction x as [|a x IH]; intros P Heq Hlen.
  - rewrite append_nil in Heq. destruct P as [|b P].
    + exists ""%string. by subst.
    + exfalso. apply (f_equal String.length) in Heq.
      rewrite length_append in Heq. simpl in Heq. lia.
  - destruct P as [|b P].
    + exists (String a x). by subst.
    + rewrite !append_cons in Heq. injection Heq as _ Heq. by apply (IH P).
Qed.

Lemma lit_Some (l s s' : string) :
  Pattern.lit l s = Some s' → s = l +:+ s'.
Proof.
  revert s. induction l as [|c l IH]; intros s H; simpl in H.
  - by injection H.
  - destruct s as [|a s]; [done |].
    destruct (Ascii.eqb_spec a c) as [->|]; [| done].
    by rewrite append_cons, (IH _ H).
Qed.

Lemma lit_append (l s : string) : Pattern.lit l (l +:+ s) = Some s.
Proof.
  induction l as [|c l IH]; [done |].
  rewrite append_cons. simpl. by rewrite Ascii.eqb_refl.
Qed.

Lemma rep_Some p n (s s' : string) :
  Pattern.rep p n s = Some s' →
  ∃ pre, s = pre +:+ s' ∧ String.length pre = n ∧ Str.all p pre = true.
Proof.
  revert s. induction n as [|n IH]; intros s H; simpl in H.
  - exists ""%string. by injection H as ->.
  - destruct s as [|a s]; [done |].
    destruct (p a) eqn:Hp; [| done].
    destruct (IH _ H) as (pre & -> & Hl & Hall).
    exists (String a pre). rewrite append_cons. simpl. by rewrite Hp, Hl, Hall.
Qed.

Lemma rep_append p (pre s : string) :
  Str.all p pre = true →
  Pattern.rep p (String.length pre) (pre +:+ s) = Some s.
Proof.
  induction pre as [|a pre IH]; [done |].
  rewrite append_cons. simpl.
  intros [Ha Hall]%andb_true_iff. rewrite Ha. by apply IH.
Qed.

(** What the pattern accepts. *)
Lemma reference_shape (s : string) :
  Pattern.reference s = true →
  ∃ d c, s = "REF" +:+ d +:+ "-" +:+ c
         ∧ String.length d = 8%nat ∧ Str.all Chars.is_digit d = true
         ∧ String.length c = 6%nat ∧ Str.all Chars.is_upper_alnum c = true.
Proof.
  unfold Pattern.reference. intros H.
  destruct (Pattern.lit "REF" s) as [s1|] eqn:H1; [| done].
  destruct (Pattern.rep Chars.is_digit 8 s1) as [s2|] eqn:H2; [| done].
  destruct (Pattern.lit "-" s2) as [s3|] eqn:H3; [| done].
  destruct (Pattern.rep Chars.is_upper_alnum 6 s3) as [s4|] eqn:H4; [| done].
  destruct s4; [| done].
  apply lit_Some in H1, H3.
  apply rep_Some in H2 as (d & -> & Hd & Hdall).
  apply rep_Some in H4 as (c & -> & Hc & Hcall).
  exists d, c. subst. rewrite append_empty_r. done.
Qed.

Lemma reference_intro (d c : string) :
  String.length d = 8%nat → Str.all Chars.is_digit d = true →
  String.length c = 6%nat → Str.all Chars.is_upper_alnum c = true →
  Pattern.reference ("REF" +:+ d +:+ "-" +:+ c) = true.
Proof.
  intros Hd Hdall Hc Hcall. unfold Pattern.reference.
  rewrite lit_append.
  rewrite <- Hd, (rep_append _ d _ Hdall).
  rewrite lit_append.
  rewrite <- (append_empty_r c) at 1.
  rewrite <- Hc, (rep_append _ c _ Hcall). done.
Qed.

(** A string that ends in a dash followed by at most five characters is
    not a reference: the six characters before the end would have to be
    upper-case letters or digits. *)
Lemma reference_dash_suffix (r tail : string) :
  (String.length tail ≤ 5)%nat →
  Pattern.reference (r +:+ String "-"%char tail) = false.
Proof.
  intros Hlen. destruct (Pattern.reference _) eqn:H; [| done].
  apply reference_shape in H as (d & c & Heq & _ & _ & Hc & Hall).
  assert (∃ P, r +:+ String "-"%char tail = P +:+ c) as [P HP].
  { exists ("REF" +:+ d +:+ "-")%string. rewrite Heq.
    by rewrite !append_assoc. }
  apply append_suffix in HP as [x' ->]; [| simpl; lia].
  rewrite all_append in Hall. simpl in Hall.
  apply andb_true_iff in Hall as [_ Hall]. done.
Qed.

End StringFacts.

(** ** The reference generator *)

Section ReferenceGenerator.

Lemma dec_digit_cases (n : Z) :
  ∃ k, (k < 10)%nat ∧ Chars.dec_digit n = ascii_of_nat (48 + k).
Proof.
  exists (Z.to_nat (n mod 10)). split; [| done].
  pose proof (Z.mod_pos_bound n 10). lia.
Qed.

Lemma dec_digit_is_digit (n : Z) : Chars.is_digit (Chars.dec_digit n) = true.
Proof.
  destruct (dec_digit_cases n) as (k & Hk & ->).
  do 10 (destruct k as [|k]; [reflexivity |]). lia.
Qed.

Lemma dec_digit_not_dash (n : Z) : Ascii.eqb (Chars.dec_digit n) "-" = false.
Proof.
  destruct (dec_digit_cases n) as (k & Hk & ->).
  do 10 (destruct k as [|k]; [reflexivity |]). lia.
Qed.

Lemma digit36_upper_alnum (n : nat) :
  Chars.is_upper_alnum (Chars.to_upper (Chars.digit36 n)) = true.
Proof.
  unfold Chars.digit36.
  pose proof (Nat.mod_upper_bound n 36) as Hd.
  destruct (n mod 36)%nat as [|d]; [reflexivity |].
  do 35 (destruct d as [|d]; [reflexivity |]). lia.
Qed.

Lemma remove_dash_digit (n : Z) (s : string) :
  Str.remove "-" (String (Chars.dec_digit n) s)
  = String (Chars.dec_digit n) (Str.remove "-" s).
Proof. cbn [Str.remove]. by rewrite dec_digit_not_dash. Qed.

(** For a date in the years 0 to 9999 the date part is eight digits. *)
Lemma dateStr_digits (d : UtcDate) :
  0 ≤ year d ≤ 9999 →
  ∃ ds, Str.remove "-" (Str.slice 0 10 (toISOString_date d)) = ds
        ∧ String.length ds = 8%nat ∧ Str.all Chars.is_digit ds = true.
Proof.
  intros Hy. eexists. split; [reflexivity |].
  unfold toISOString_date.
  replace ((0 <=? year d) && (year d <=? 9999)) with true
    by (symmetry; apply andb_true_iff; split; apply Z.leb_le; lia).
  unfold Str.pad, Str.pad_acc, Str.slice.
  rewrite !append_cons, !append_nil. cbn [String.substring Nat.sub].
  rewrite !remove_dash_digit.
  change (Str.remove "-" (String "-" ?s)) with (Str.remove "-" s).
  rewrite !remove_dash_digit.
  change (Str.remove "-" (String "-" ?s)) with (Str.remove "-" s).
  rewrite !remove_dash_digit.
  split; [reflexivity |].
  cbn [Str.remove Str.all]. by rewrite !dec_digit_is_digit.
Qed.

(** A draw that prints at least six digits gives six characters of
    [A-Z0-9]. *)
Lemma randomStr_upper_alnum (digits : list nat) :
  (6 ≤ List.length digits)%nat →
  ∃ rs, Str.toUpperCase (Str.slice 2 8 (random_toString36 digits)) = rs
        ∧ String.length rs = 6%nat ∧ Str.all Chars.is_upper_alnum rs = true.
Proof.
  intros Hlen. eexists. split; [reflexivity |].
  do 6 (destruct digits as [|? digits]; [simpl in Hlen; lia |]).
  unfold random_toString36, Str.slice, Str.toUpperCase.
  rewrite !append_cons, append_nil.
  cbn [List.map Str.of_list String.substring Nat.sub Str.map].
  assert (∀ s, String.substring 0 0 s = ""%string) as -> by (by intros []).
  cbn [Str.map String.length Str.all].
  by rewrite !digit36_upper_alnum.
Qed.

(** The generated reference is well formed on every date of the years 0 to
    9999 when the draw prints at least six digits. *)
Lemma generateReference_valid (env : Env) :
  0 ≤ year (today env) ≤ 9999 →
  (6 ≤ List.length (random_digits env))%nat →
  isValidReference (generateReference env) = true.
Proof.
  intros Hy Hr. unfold isValidReference, generateReference.
  destruct (dateStr_digits _ Hy) as (ds & -> & Hd & Hdall).
  destruct (randomStr_upper_alnum _ Hr) as (rs & -> & Hc & Hcall).
  by apply reference_intro.
Qed.

(** The two references of a transfer are never well formed, whatever the
    generated reference is. *)
Lemma suffixed_reference_invalid (r : string) :
  Pattern.reference (r +:+ "-OUT") = false
  ∧ Pattern.reference (r +:+ "-IN") = false.
Proof. split; apply reference_dash_suffix; simpl; lia. Qed.

End ReferenceGenerator.

(** ** The monad *)

Section Monad.

Context {A B : Type}.

Lemma bind_inv (m : M A) (k : A → M B) db r db' :
  bind m k db = (r, db') →
  (∃ e, m db = (Err e, db') ∧ r = Err e)
  ∨ (∃ a db1, m db = (Ok a, db1) ∧ k a db1 = (r, db')).
Proof.
  unfold bind. destruct (m db) as [[a|e] db1]; intros H.
  - right. eauto.
  - left. exists e. by simplify_eq.
Qed.

Lemma try_catch_inv (m : M A) (h : Error → M A) db r db' :
  try_catch m h db = (r, db') →
  (∃ a, m db = (Ok a, db') ∧ r = Ok a)
  ∨ (∃ e db1, m db = (Err e, db1) ∧ h e db1 = (r, db')).
Proof.
  unfold try_catch. destruct (m db) as [[a|e] db1]; intros H.
  - left. exists a. by simplify_eq.
  - right. eauto.
Qed.

Lemma db_transaction_inv (cb : M A) db r db' :
  db_transaction cb db = (r, db') →
  (∃ a, cb db = (Ok a, db') ∧ r = Ok a)
  ∨ (∃ e db1, cb db = (Err e, db1) ∧ r = Err e ∧ db' = rollback db db1).
Proof.
  unfold db_transaction. destruct (cb db) as [[a|e] db1]; intros H.
  - left. exists a. by simplify_eq.
  - right. exists e, db1. by simplify_eq.
Qed.

End Monad.

(** ** The INSERT and the balance trigger *)

Section Insert.

Lemma ledger_sum_app a (l k : list Transaction) :
  ledger_sum a (l ++ k) = ledger_sum a l + ledger_sum a k.
Proof. induction l as [|t l IH]; simpl; [done |]. rewrite IH. lia. Qed.

Lemma insert_transaction_Err new db e db' :
  insert_transaction new db = (Err e, db') → db' = next_txn_id db.
Proof.
  unfold insert_transaction. intros H.
  repeat case_match; by simplify_eq.
Qed.

Lemma insert_transaction_Ok_iff new db :
  (∃ row db', insert_transaction new db = (Ok row, db'))
  ↔ ledger_accepts new db = true.
Proof.
  unfold insert_transaction, ledger_accepts. split.
  - intros (row & db' & H).
    repeat case_match; simplify_eq.
    repeat match goal with
           | H : negb _ = false |- _ => apply negb_false_iff in H
           | H : _ && _ = true |- _ => apply andb_true_iff in H as [? ?]
           end.
    repeat (apply andb_true_iff; split); try done.
  - intros H.
    repeat match goal with
           | H : _ && _ = true |- _ => apply andb_true_iff in H as [H ?]
           end.
    repeat match goal with
           | H : ?b = true |- context [?b] => rewrite H
           | H : negb ?b = true |- context [?b] =>
               rewrite (proj1 (negb_true_iff _) H)
           end.
    simpl. eauto.
Qed.

(** What a successful INSERT leaves behind. *)
Lemma insert_transaction_Ok new db row db' :
  insert_transaction new db = (Ok row, db') →
  let accounts := update_account_balance new (account_projections db) in
  row = {| txn_id := txn_id_seq db;
           account_id := td_account_id new;
           amount := td_amount new;
           txn_type := td_txn_type new;
           counterparty := td_counterparty new;
           reference := td_reference new;
           description := td_description new;
           balance_after := current_balance <$> accounts !! td_account_id new |}
  ∧ db' = set_transactions_accounts (next_txn_id db) accounts (transactions db ++ [row])
  ∧ is_Some (account_projections db !! td_account_id new).
Proof.
  unfold insert_transaction. intros H.
  repeat case_match; simplify_eq.
  repeat split.
  match goal with H : negb (bool_decide _) = false |- _ =>
    apply negb_false_iff, bool_decide_eq_true in H; exact H end.
Qed.

(** The entry records the balance the account has right after it. *)
Lemma insert_transaction_balance_after new db row db' :
  insert_transaction new db = (Ok row, db') →
  transactions db' = transactions db ++ [row]
  ∧ balance_after row = current_balance <$> account_projections db' !! account_id row
  ∧ is_Some (balance_after row).
Proof.
  intros H. destruct (insert_transaction_Ok _ _ _ _ H) as (-> & -> & [acct Hacct]).
  simpl. repeat split.
  unfold update_account_balance.
  destruct (td_txn_type new); rewrite lookup_alter_eq, Hacct; simpl; eauto.
Qed.

(** The trigger moves the balance by the signed amount of the entry, so the
    offset of every account is the same after the INSERT. *)
Lemma insert_transaction_offset new db r db' a :
  insert_transaction new db = (r, db') → offset db' a = offset db a.
Proof.
  destruct r as [row|e]; intros H.
  - destruct (insert_transaction_Ok _ _ _ _ H) as (-> & -> & _).
    unfold offset. simpl. rewrite ledger_sum_app. simpl.
    unfold signed_amount. simpl.
    unfold update_account_balance.
    destruct (decide (td_account_id new = a)) as [->|Hne].
    + rewrite Z.eqb_refl.
      destruct (td_txn_type new); rewrite lookup_alter_eq;
        destruct (account_projections db !! a); simpl; f_equal; lia.
    + replace (td_account_id new =? a) with false by (symmetry; by apply Z.eqb_neq).
      destruct (td_txn_type new); rewrite lookup_alter_ne by done;
        destruct (account_projections db !! a); simpl; f_equal; lia.
  - by rewrite (insert_transaction_Err _ _ _ _ H).
Qed.

End Insert.

(** ** What a call keeps *)

Section Keeps.

Context (R : relation Database) `{!PreOrder R}.
(** [R] survives a rollback: it looks at the tables, or at what a rollback
    leaves alone. *)
Hypothesis R_rollback : ∀ db db1, R db db1 → R db (rollback db db1).

Lemma keeps_ret {A} (a : A) : keeps R (ret a).
Proof. intros db r db' H. unfold ret in H. by simplify_eq. Qed.

Lemma keeps_throw {A} e : keeps R (throw (A:=A) e).
Proof. intros db r db' H. unfold throw in H. by simplify_eq. Qed.

Lemma keeps_bind {A B} (m : M A) (k : A → M B) :
  keeps R m → (∀ a, keeps R (k a)) → keeps R (bind m k).
Proof.
  intros Hm Hk db r db' H.
  apply bind_inv in H as [(e & H & _)|(a & db1 & H1 & H2)].
  - by eapply Hm.
  - etrans; [by eapply Hm | by eapply Hk].
Qed.

Lemma keeps_try_catch {A} (m : M A) (h : Error → M A) :
  keeps R m → (∀ e, keeps R (h e)) → keeps R (try_catch m h).
Proof.
  intros Hm Hh db r db' H.
  apply try_catch_inv in H as [(a & H & _)|(e & db1 & H1 & H2)].
  - by eapply Hm.
  - etrans; [by eapply Hm | by eapply Hh].
Qed.

Lemma keeps_db_transaction {A} (cb : M A) :
  keeps R cb → keeps R (db_transaction cb).
Proof.
  intros Hcb db r db' H.
  apply db_transaction_inv in H as [(a & H & _)|(e & db1 & H & _ & ->)].
  - by eapply Hcb.
  - apply R_rollback. by eapply Hcb.
Qed.

End Keeps.

#[local] Instance same_offsets_preorder : PreOrder same_offsets.
Proof.
  split; [by intros db a |].
  intros x y z Hxy Hyz a. by rewrite Hyz, Hxy.
Qed.

#[local] Instance same_keys_preorder : PreOrder same_keys.
Proof.
  split; [by intros db |]. unfold same_keys. intros x y z Hxy Hyz. congruence.
Qed.

#[local] Instance same_locks_preorder : PreOrder same_locks.
Proof.
  split; [by intros db |]. unfold same_locks. intros x y z Hxy Hyz. congruence.
Qed.

#[local] Instance same_ledger_preorder : PreOrder same_ledger.
Proof.
  split; [by intros db |].
  unfold same_ledger. intros x y z [? ?] [? ?]. split; congruence.
Qed.

Lemma same_offsets_rollback db db1 : same_offsets db db1 → same_offsets db (rollback db db1).
Proof. by intros _ a. Qed.

Lemma same_keys_rollback db db1 : same_keys db db1 → same_keys db (rollback db db1).
Proof. done. Qed.

Lemma same_locks_rollback db db1 : same_locks db db1 → same_locks db (rollback db db1).
Proof. done. Qed.

Lemma same_ledger_rollback db db1 : same_ledger db db1 → same_ledger db (rollback db db1).
Proof. done. Qed.

Lemma same_ledger_offsets db db' : same_ledger db db' → same_offsets db db'.
Proof. intros [Ht Ha] a. unfold offset. by rewrite Ht, Ha. Qed.

Lemma same_offsets_balanced db db' : same_offsets db db' → balanced db → balanced db'.
Proof.
  intros Hoff Hbal a acct Hacct.
  specialize (Hoff a). unfold offset in Hoff. rewrite Hacct in Hoff. simpl in Hoff.
  destruct (account_projections db !! a) as [acct0|] eqn:H0; [| done].
  simpl in Hoff. injection Hoff as Hoff. specialize (Hbal _ _ H0). lia.
Qed.

(** ** The repositories *)

Section Repositories.

Lemma insert_transaction_keeps_offsets new : keeps same_offsets (insert_transaction new).
Proof. intros db r db' H a. by eapply insert_transaction_offset. Qed.

Lemma insert_transaction_keeps_keys new : keeps same_keys (insert_transaction new).
Proof.
  intros db [row|e] db' H.
  - by destruct (insert_transaction_Ok _ _ _ _ H) as (_ & -> & _).
  - by rewrite (insert_transaction_Err _ _ _ _ H).
Qed.

Lemma insert_transaction_keeps_locks new : keeps same_locks (insert_transaction new).
Proof.
  intros db [row|e] db' H.
  - by destruct (insert_transaction_Ok _ _ _ _ H) as (_ & -> & _).
  - by rewrite (insert_transaction_Err _ _ _ _ H).
Qed.

Lemma insert_transaction_Err_ledger new db e db' :
  insert_transaction new db = (Err e, db') → same_ledger db db'.
Proof. intros H. by rewrite (insert_transaction_Err _ _ _ _ H). Qed.

Lemma createMultiple_loop_keeps R `{!PreOrder R} :
  (∀ new, keeps R (insert_transaction new)) →
  ∀ l, keeps R (createMultiple_loop l).
Proof.
  intros Hins l. induction l as [|new l IH]; simpl.
  - by apply keeps_ret.
  - destruct (Transaction_validate new); [| by apply keeps_throw].
    apply keeps_bind; [done | done | intros row].
    apply keeps_bind; [done | done | intros rows].
    by apply keeps_ret.
Qed.

Lemma insert_transaction_entry_of new db row db' :
  insert_transaction new db = (Ok row, db') → entry_of new row.
Proof.
  intros H. by destruct (insert_transaction_Ok _ _ _ _ H) as (-> & _).
Qed.

(** A batch that goes through appends one entry per element, in order. *)
Lemma createMultiple_loop_Ok l db rows db' :
  createMultiple_loop l db = (Ok rows, db') →
  transactions db' = transactions db ++ rows
  ∧ Forall2 entry_of l rows.
Proof.
  revert db rows db'. induction l as [|new l IH]; intros db rows db' H; simpl in H.
  - unfold ret in H. simplify_eq. by rewrite app_nil_r.
  - destruct (Transaction_validate new); [| by unfold throw in H].
    apply bind_inv in H as [(e & _ & ?)|(row & db1 & H1 & H)]; [done |].
    apply bind_inv in H as [(e & _ & ?)|(rows' & db2 & H2 & H)]; [done |].
    unfold ret in H. simplify_eq.
    destruct (insert_transaction_balance_after _ _ _ _ H1) as (Ht & _).
    destruct (IH _ _ _ H2) as (Ht' & Hall).
    rewrite Ht', Ht, <- app_assoc. split; [done |].
    constructor; [by eapply insert_transaction_entry_of | done].
Qed.

Lemma createMultiple_keeps R `{!PreOrder R} :
  (∀ db db1, R db db1 → R db (rollback db db1)) →
  (∀ new, keeps R (insert_transaction new)) →
  ∀ l, keeps R (createMultiple l).
Proof.
  intros Hrb Hins l. apply keeps_db_transaction; [done |].
  by apply createMultiple_loop_keeps.
Qed.

(** createMultiple is all or nothing: when it throws, no entry of the batch
    and no balance change is left. *)
Lemma createMultiple_Err l db e db' :
  createMultiple l db = (Err e, db') → same_ledger db db'.
Proof.
  intros H. apply db_transaction_inv in H as [(a & _ & ?)|(e' & db1 & _ & _ & ->)]; done.
Qed.

Lemma createMultiple_Ok l db rows db' :
  createMultiple l db = (Ok rows, db') →
  transactions db' = transactions db ++ rows
  ∧ Forall2 entry_of l rows.
Proof.
  intros H. apply db_transaction_inv in H as [(a & H & ?)|(e' & db1 & _ & ? & _)]; [| done].
  simplify_eq. by apply createMultiple_loop_Ok.
Qed.

Lemma create_keeps R `{!PreOrder R} :
  (∀ new, keeps R (insert_transaction new)) →
  ∀ d, keeps R (TransactionRepository_create d).
Proof.
  intros Hins d. unfold TransactionRepository_create.
  destruct (Transaction_validate d); [| by apply keeps_throw].
  apply keeps_try_catch; [done | done |].
  intros e. destruct (is_unique_violation e); by apply keeps_throw.
Qed.

Lemma create_Err d db e db' :
  TransactionRepository_create d db = (Err e, db') → same_ledger db db'.
Proof.
  unfold TransactionRepository_create.
  destruct (Transaction_validate d); [| by unfold throw; intros; simplify_eq].
  intros H. apply try_catch_inv in H as [(a & _ & ?)|(e' & db1 & H1 & H)]; [done |].
  apply insert_transaction_Err_ledger in H1.
  destruct (is_unique_violation e'); unfold throw in H; by simplify_eq.
Qed.

Lemma findById_inv a db r db' :
  findById a db = (r, db') → r = Ok (account_projections db !! a) ∧ db' = db.
Proof. unfold findById. intros H. by simplify_eq. Qed.

Lemma lockForUpdate_inv a db r db' :
  lockForUpdate a db = (r, db') →
  (account_projections db !! a = None
   ∧ r = Err (JsError "Account projection not found") ∧ db' = db)
  ∨ (∃ row, account_projections db !! a = Some row
            ∧ r = Ok (Some row) ∧ db' = record_lock a db).
Proof.
  unfold lockForUpdate. intros H.
  destruct (account_projections db !! a) as [row|]; simplify_eq; eauto.
Qed.

Lemma lockForUpdate_keeps_ledger a : keeps same_ledger (lockForUpdate a).
Proof.
  intros db r db' H.
  by apply lockForUpdate_inv in H as [(_ & _ & ->)|(row & _ & _ & ->)].
Qed.

Lemma lockForUpdate_keeps_keys a : keeps same_keys (lockForUpdate a).
Proof.
  intros db r db' H.
  by apply lockForUpdate_inv in H as [(_ & _ & ->)|(row & _ & _ & ->)].
Qed.

Lemma checkKey_inv key env db r db' :
  checkKey key env db = (r, db') → db' = db.
Proof. unfold checkKey. intros H. case_match; by simplify_eq. Qed.

Lemma idempotency_create_keeps_ledger key body env :
  keeps same_ledger (IdempotencyKeyRepository_create key body env).
Proof.
  intros db r db' H. unfold IdempotencyKeyRepository_create, throw in H.
  repeat case_match; by simplify_eq.
Qed.

Lemma idempotency_create_keeps_locks key body env :
  keeps same_locks (IdempotencyKeyRepository_create key body env).
Proof.
  intros db r db' H. unfold IdempotencyKeyRepository_create, throw in H.
  repeat case_match; by simplify_eq.
Qed.

Lemma updateWithResult_keeps_ledger key id body :
  keeps same_ledger (updateWithResult key id body).
Proof.
  intros db r db' H. unfold updateWithResult in H.
  repeat case_match; by simplify_eq.
Qed.

Lemma updateWithResult_keeps_locks key id body :
  keeps same_locks (updateWithResult key id body).
Proof.
  intros db r db' H. unfold updateWithResult in H.
  repeat case_match; by simplify_eq.
Qed.

Lemma delete_keeps_ledger key : keeps same_ledger (IdempotencyKeyRepository_delete key).
Proof. intros db r db' H. unfold IdempotencyKeyRepository_delete in H. by simplify_eq. Qed.

Lemma delete_keeps_locks key : keeps same_locks (IdempotencyKeyRepository_delete key).
Proof. intros db r db' H. unfold IdempotencyKeyRepository_delete in H. by simplify_eq. Qed.

End Repositories.

(** ** The service *)

Section Service.

Lemma keeps_weaken {A} (R S : relation Database) (m : M A) :
  (∀ db db', R db db' → S db db') → keeps R m → keeps S m.
Proof. intros HRS Hm db r db' H. apply HRS. by eapply Hm. Qed.

Lemma findById_keeps R `{!PreOrder R} a : keeps R (findById a).
Proof. intros db r db' H. by apply findById_inv in H as [_ ->]. Qed.

Lemma processDeposit_keeps_offsets d env : keeps same_offsets (processDeposit d env).
Proof.
  unfold processDeposit.
  apply (keeps_bind same_offsets); [apply (findById_keeps same_offsets) | intros [acct|]].
  - repeat case_match; try apply (keeps_throw same_offsets).
    apply (keeps_bind same_offsets); [| intros ?; apply (keeps_ret same_offsets)].
    apply (create_keeps same_offsets), insert_transaction_keeps_offsets.
  - apply (keeps_throw same_offsets).
Qed.

Lemma processWithdrawal_keeps_offsets w env :
  keeps same_offsets (processWithdrawal w env).
Proof.
  unfold processWithdrawal.
  apply (keeps_bind same_offsets); [apply (findById_keeps same_offsets) | intros [acct|]].
  - repeat case_match; try apply (keeps_throw same_offsets).
    apply (keeps_bind same_offsets); [| intros ?; apply (keeps_ret same_offsets)].
    apply (create_keeps same_offsets), insert_transaction_keeps_offsets.
  - apply (keeps_throw same_offsets).
Qed.

Lemma checkKey_keeps R `{!PreOrder R} key env : keeps R (checkKey key env).
Proof. intros db r db' H. by rewrite (checkKey_inv _ _ _ _ _ H). Qed.

(** The idempotency block touches the idempotency records only. *)
Lemma idempotency_gate_keeps R `{!PreOrder R} td key env :
  (∀ k, keeps R (IdempotencyKeyRepository_create k td env)) →
  keeps R (idempotency_gate td key env).
Proof.
  intros Hcreate.
  unfold idempotency_gate. destruct (truthy_key key) as [k|]; [| apply (keeps_ret R)].
  apply (keeps_bind R); [apply (checkKey_keeps R) | intros ks].
  repeat case_match; try apply (keeps_throw R); try apply (keeps_ret R).
  apply (keeps_bind R); [apply Hcreate | intros ?; apply (keeps_ret R)].
Qed.

Lemma idempotency_gate_keeps_ledger td key env :
  keeps same_ledger (idempotency_gate td key env).
Proof.
  apply (idempotency_gate_keeps same_ledger). intros k.
  apply idempotency_create_keeps_ledger.
Qed.

Lemma idempotency_gate_keeps_locks td key env :
  keeps same_locks (idempotency_gate td key env).
Proof.
  apply (idempotency_gate_keeps same_locks). intros k.
  apply idempotency_create_keeps_locks.
Qed.

(** Once the block falls through with a key, the key has a record. *)
Lemma idempotency_gate_Proceed td key env db db1 k :
  idempotency_gate td key env db = (Ok Proceed, db1) →
  truthy_key key = Some k →
  is_Some (idempotency_keys db1 !! k).
Proof.
  unfold idempotency_gate. intros H Hk. rewrite Hk in H.
  apply bind_inv in H as [(e & _ & ?)|(ks & db0 & Hck & H)]; [done |].
  pose proof (checkKey_inv _ _ _ _ _ Hck) as ->.
  unfold checkKey in Hck.
  destruct (idempotency_keys db !! k) as [row|] eqn:Hrow; simplify_eq; simpl in H.
  - repeat case_match; unfold ret, throw in H; simplify_eq. by rewrite Hrow.
  - apply bind_inv in H as [(e & _ & ?)|(row & db2 & Hc & H)]; [done |].
    unfold ret in H. simplify_eq.
    unfold IdempotencyKeyRepository_create, throw in Hc.
    repeat case_match; simplify_eq. simpl. by rewrite lookup_insert_eq.
Qed.

Lemma insert_transaction_error new db e db' :
  insert_transaction new db = (Err e, db') → ∃ code, e = PgError code.
Proof.
  unfold insert_transaction. intros H. repeat case_match; simplify_eq; eauto.
Qed.

Lemma createMultiple_loop_error l db e db' :
  createMultiple_loop l db = (Err e, db') → transfer_error e.
Proof.
  revert db. induction l as [|new l IH]; intros db H; simpl in H.
  - by unfold ret in H.
  - destruct (Transaction_validate new) eqn:Hv.
    + apply bind_inv in H as [(e' & H & ?)|(row & db1 & _ & H)].
      * simplify_eq. apply insert_transaction_error in H as [code ->]. constructor.
      * apply bind_inv in H as [(e' & H & ?)|(rows & db2 & _ & H)].
        -- simplify_eq. by eapply IH.
        -- by unfold ret in H.
    + unfold throw in H. simplify_eq. constructor.
Qed.

Lemma createMultiple_error l db e db' :
  createMultiple l db = (Err e, db') → transfer_error e.
Proof.
  intros H. apply db_transaction_inv in H as [(a & _ & ?)|(e' & db1 & H & ? & _)]; [done |].
  simplify_eq. by eapply createMultiple_loop_error.
Qed.

(** The ways through the callback of the transfer. *)
Lemma transfer_unit_inv td env db r db' :
  transfer_unit td env db = (r, db') →
  match account_projections db !! from_account_id td,
        account_projections db !! to_account_id td with
  | None, _ =>
      r = Err (JsError "Account projection not found") ∧ db' = db
  | Some _, None =>
      r = Err (JsError "Account projection not found")
      ∧ db' = record_lock (from_account_id td) db
  | Some fromAccount, Some toAccount =>
      let db2 := record_lock (to_account_id td) (record_lock (from_account_id td) db) in
      (∃ e, r = Err e ∧ transfer_error e ∧ db' = db2)
      ∨ (∃ l r1, transfer_batch td l
                 ∧ createMultiple l db2 = (r1, db')
                 ∧ match r1 with
                   | Err e => r = Err e
                   | Ok rows =>
                       ∃ result, r = Ok result
                                 ∧ debit_transaction result ∈ rows
                   end)
  end.
Proof.
  unfold transfer_unit. intros H.
  apply bind_inv in H as [(e & H & ->)|(fromA & db1 & H1 & H)].
  { apply lockForUpdate_inv in H as [(-> & ? & ->)|(row & _ & ? & _)]; by simplify_eq. }
  apply lockForUpdate_inv in H1 as [(_ & ? & _)|(fromRow & -> & ? & ->)]; [done |].
  simplify_eq.
  apply bind_inv in H as [(e & H & ->)|(toA & db2 & H2 & H)].
  { apply lockForUpdate_inv in H as [(Hto & ? & ->)|(row & _ & ? & _)]; [| done].
    simpl in Hto. rewrite Hto. by simplify_eq. }
  apply lockForUpdate_inv in H2 as [(_ & ? & _)|(toRow & Hto & ? & ->)]; [done |].
  simpl in Hto. rewrite Hto. simplify_eq. simpl.
  destruct (negb (isActive fromRow)).
  { left. unfold throw in H. simplify_eq. eexists. split; [done |]. split; [constructor | done]. }
  destruct (negb (isActive toRow)).
  { left. unfold throw in H. simplify_eq. eexists. split; [done |]. split; [constructor | done]. }
  destruct (canDebit fromRow (tr_amount td)) as [debitBalance|reason].
  2:{ left. unfold throw in H. simplify_eq. eexists. split; [done |]. split; [constructor | done]. }
  destruct (canCredit toRow (tr_amount td)) as [creditBalance|reason].
  2:{ left. unfold throw in H. simplify_eq. eexists. split; [done |]. split; [constructor | done]. }
  right.
  match type of H with
  | bind (createMultiple ?l) _ _ = _ =>
      assert (transfer_batch td l) as Hbatch by (do 3 eexists; by repeat split)
  end.
  apply bind_inv in H as [(e & H & ->)|(rows & db3 & Hcm & H)].
  { do 2 eexists. split; [exact Hbatch |]. split; [exact H | done]. }
  destruct (createMultiple_Ok _ _ _ _ Hcm) as [_ Hall].
  apply Forall2_length in Hall.
  destruct rows as [|d [|c rest]]; [done | done |].
  unfold ret in H. simplify_eq.
  do 2 eexists. split; [exact Hbatch |]. split; [exact Hcm |].
  eexists. split; [done |]. simpl. set_solver.
Qed.

Lemma transfer_unit_throws td env db e db' :
  transfer_unit td env db = (Err e, db') → transfer_error e.
Proof.
  intros H. apply transfer_unit_inv in H.
  repeat case_match.
  - destruct H as [(e' & ? & ? & _)|(l & [rows|e'] & _ & Hcm & H)]; simplify_eq; [done | |].
    + by destruct H as (? & ? & _).
    + by eapply createMultiple_error.
  - destruct H as [? _]. simplify_eq. constructor.
  - destruct H as [? _]. simplify_eq. constructor.
Qed.

Lemma transfer_unit_keeps R `{!PreOrder R} td env :
  (∀ a db, R db (record_lock a db)) →
  (∀ db db1, R db db1 → R db (rollback db db1)) →
  (∀ new, keeps R (insert_transaction new)) →
  keeps R (transfer_unit td env).
Proof.
  intros Hlock Hrb Hins db r db' H. apply transfer_unit_inv in H.
  repeat case_match.
  - assert (R db (record_lock (to_account_id td) (record_lock (from_account_id td) db)))
      as Hdb2 by (etrans; apply Hlock).
    destruct H as [(e & _ & _ & ->)|(l & r1 & _ & Hcm & _)]; [done |].
    etrans; [exact Hdb2 |]. by eapply (createMultiple_keeps R).
  - destruct H as [_ ->]. apply Hlock.
  - by destruct H as [_ ->].
Qed.

Lemma transfer_unit_keeps_offsets td env : keeps same_offsets (transfer_unit td env).
Proof.
  apply (transfer_unit_keeps same_offsets); [by intros a db x | |].
  - apply same_offsets_rollback.
  - apply insert_transaction_keeps_offsets.
Qed.

Lemma transfer_unit_keeps_keys td env : keeps same_keys (transfer_unit td env).
Proof.
  apply (transfer_unit_keeps same_keys); [done | done |].
  apply insert_transaction_keeps_keys.
Qed.

(** The callback locks the source row first and the destination row second. *)
Lemma transfer_unit_locks td env db r db' :
  transfer_unit td env db = (r, db') →
  lock_trace db' = lock_trace db ++ transfer_locks td db.
Proof.
  intros H. apply transfer_unit_inv in H. unfold transfer_locks.
  repeat case_match.
  - destruct H as [(e & _ & _ & ->)|(l & r1 & _ & Hcm & _)].
    + simpl. by rewrite <- app_assoc.
    + apply (createMultiple_keeps same_locks) in Hcm;
        [| done | apply insert_transaction_keeps_locks].
      rewrite Hcm. simpl. by rewrite <- app_assoc.
  - by destruct H as [_ ->].
  - destruct H as [_ ->]. by rewrite app_nil_r.
Qed.

(** A committed transfer has its debit entry in the ledger. *)
Lemma transfer_unit_Ok td env db result db' :
  transfer_unit td env db = (Ok result, db') →
  has_txn_id (txn_id (debit_transaction result)) (transactions db') = true.
Proof.
  intros H. apply transfer_unit_inv in H.
  repeat case_match; try (by destruct H).
  destruct H as [(e & ? & _)|(l & [rows|e] & _ & Hcm & H)]; [done | | done].
  destruct H as (result' & ? & Hin). simplify_eq.
  destruct (createMultiple_Ok _ _ _ _ Hcm) as [-> _].
  unfold has_txn_id. apply existsb_exists.
  exists (debit_transaction result'). split; [| by apply Z.eqb_refl].
  apply in_or_app. right. by apply list_elem_of_In.
Qed.

(** The try block and its handler. *)
Lemma transfer_attempt_inv td key env db r db' :
  transfer_attempt td key env db = (r, db') →
  ∃ r0 db0, transfer_unit td env db = (r0, db0)
    ∧ match r0 with
      | Err e =>
          r = Err e
          ∧ same_ledger db db' ∧ lock_trace db' = lock_trace db0
      | Ok result =>
          same_ledger db0 db' ∧ lock_trace db' = lock_trace db0
          ∧ (r = Ok (Some result)
             ∨ ∃ k e, truthy_key key = Some k ∧ r = Err e
                      ∧ updateWithResult k (txn_id (debit_transaction result)) result db0
                        = (Err e, db0))
      end.
Proof.
  unfold transfer_attempt. intros H.
  apply try_catch_inv in H as [(a & H & ->)|(e & db1 & H & Hh)].
  - apply bind_inv in H as [(e & _ & ?)|(result & db0 & Hu & H)]; [done |].
    apply db_transaction_inv in Hu as [(? & Hu & ?)|(? & ? & _ & ? & _)]; [| done].
    simplify_eq. do 2 eexists. split; [exact Hu |]. cbv beta iota.
    destruct (truthy_key key) as [k|].
    + apply bind_inv in H as [(e & _ & ?)|(row & db2 & Hup & H)]; [done |].
      unfold ret in H. simplify_eq.
      split; [by eapply updateWithResult_keeps_ledger |].
      split; [by eapply updateWithResult_keeps_locks | by left].
    + unfold ret in H. simplify_eq. split; [done |]. split; [done | by left].
  - assert (same_ledger db1 db' ∧ lock_trace db' = lock_trace db1 ∧ r = Err e)
      as (Hl & Ht & ->).
    { destruct (truthy_key key) as [k|].
      - apply bind_inv in Hh as [(? & Hd & ?)|(b & db2 & Hd & Hh)].
        + unfold IdempotencyKeyRepository_delete in Hd. by simplify_eq.
        + unfold throw in Hh. simplify_eq.
          split; [by eapply delete_keeps_ledger |].
          split; [by eapply delete_keeps_locks | done].
      - unfold throw in Hh. by simplify_eq. }
    apply bind_inv in H as [(e0 & Hu & ?)|(result & db0 & Hu & H)].
    + simplify_eq.
      apply db_transaction_inv in Hu as [(? & _ & ?)|(e1 & db0 & Hu & ? & ->)]; [done |].
      simplify_eq. do 2 eexists. split; [exact Hu |]. cbv beta iota.
      split; [done |]. split; [| done].
      destruct Hl as [Hl1 Hl2]. by split.
    + apply db_transaction_inv in Hu as [(? & Hu & ?)|(? & ? & _ & ? & _)]; [| done].
      simplify_eq. do 2 eexists. split; [exact Hu |]. cbv beta iota.
      destruct (truthy_key key) as [k|]; [| by unfold ret in H].
      apply bind_inv in H as [(e0 & Hup & ?)|(row & db2 & _ & H)];
        [| by unfold ret in H].
      simplify_eq.
      assert (db1 = db0) as ->.
      { unfold updateWithResult in Hup. repeat case_match; by simplify_eq. }
      split; [done |]. split; [done |]. right. by do 2 eexists.
Qed.

Lemma processTransfer_inv td key env db r db' :
  processTransfer td key env db = (r, db') →
  (∃ e, idempotency_gate td key env db = (Err e, db') ∧ r = Err e)
  ∨ (∃ response, idempotency_gate td key env db = (Ok (ReturnStored response), db')
                 ∧ r = Ok response)
  ∨ (∃ db1, idempotency_gate td key env db = (Ok Proceed, db1)
            ∧ transfer_attempt td key env db1 = (r, db')).
Proof.
  unfold processTransfer. intros H.
  apply bind_inv in H as [(e & H & ->)|([response|] & db1 & Hg & H)].
  - left. eauto.
  - right. left. unfold ret in H. simplify_eq. eauto.
  - right. right. eauto.
Qed.

(** The idempotency block throws before anything else is done. *)
Lemma idempotency_gate_Err td key env db e db' :
  idempotency_gate td key env db = (Err e, db') → transfer_error e ∧ db' = db.
Proof.
  unfold idempotency_gate. intros H.
  destruct (truthy_key key) as [k|]; [| by unfold ret in H].
  apply bind_inv in H as [(e' & H & ?)|(ks & db0 & Hck & H)].
  { unfold checkKey in H. case_match; by simplify_eq. }
  pose proof (checkKey_inv _ _ _ _ _ Hck) as ->.
  destruct (ks_exists ks).
  - destruct (ks_expired ks).
    + unfold throw in H. simplify_eq. split; [constructor | done].
    + destruct (ks_processed ks); by unfold ret in H.
  - apply bind_inv in H as [(e' & H & ?)|(row & db2 & _ & H)]; [| by unfold ret in H].
    simplify_eq. unfold IdempotencyKeyRepository_create, throw in H.
    repeat case_match; simplify_eq; split; try done; constructor.
Qed.

Lemma idempotency_gate_ReturnStored td key env db response db' :
  idempotency_gate td key env db = (Ok (ReturnStored response), db') → db' = db.
Proof.
  unfold idempotency_gate. intros H.
  destruct (truthy_key key) as [k|]; [| by unfold ret in H].
  apply bind_inv in H as [(e' & _ & ?)|(ks & db0 & Hck & H)]; [done |].
  pose proof (checkKey_inv _ _ _ _ _ Hck) as ->.
  destruct (ks_exists ks).
  - destruct (ks_expired ks); [by unfold throw in H |].
    destruct (ks_processed ks); unfold ret in H; by simplify_eq.
  - apply bind_inv in H as [(e' & _ & ?)|(row & db2 & _ & H)]; [done |].
    by unfold ret in H.
Qed.

Lemma updateWithResult_error k id body db e db' :
  updateWithResult k id body db = (Err e, db') → transfer_error e.
Proof.
  unfold updateWithResult. intros H. repeat case_match; simplify_eq; constructor.
Qed.

(** Every error of processTransfer is one of [transfer_error]. *)
Lemma processTransfer_error td key env db e db' :
  processTransfer td key env db = (Err e, db') → transfer_error e.
Proof.
  intros H. apply processTransfer_inv in H as [(e' & H & ?)|[(resp & _ & ?)|(db1 & _ & H)]].
  - simplify_eq. by apply idempotency_gate_Err in H as [? _].
  - done.
  - apply transfer_attempt_inv in H as (r0 & db0 & Hu & H).
    destruct r0 as [result|e0].
    + destruct H as (_ & _ & [?|(k & e' & _ & ? & Hup)]); [done |].
      simplify_eq. by eapply updateWithResult_error.
    + destruct H as (? & _). simplify_eq. by eapply transfer_unit_throws.
Qed.

Lemma processTransfer_keeps_offsets td key env :
  keeps same_offsets (processTransfer td key env).
Proof.
  intros db r db' H a.
  apply processTransfer_inv in H as [(e' & H & ?)|[(resp & H & ?)|(db1 & Hg & H)]].
  - by apply idempotency_gate_Err in H as [_ ->].
  - by apply idempotency_gate_ReturnStored in H as ->.
  - apply idempotency_gate_keeps_ledger, same_ledger_offsets in Hg.
    rewrite <- (Hg a).
    apply transfer_attempt_inv in H as (r0 & db0 & Hu & H).
    apply transfer_unit_keeps_offsets in Hu.
    destruct r0 as [result|e0].
    + destruct H as (Hl & _). apply same_ledger_offsets in Hl.
      by rewrite (Hl a), (Hu a).
    + destruct H as (_ & Hl & _). apply same_ledger_offsets in Hl. by rewrite (Hl a).
Qed.

(** A transfer that throws leaves the ledger and the balances as they
    were. *)
Lemma processTransfer_Err_ledger td key env db e db' :
  processTransfer td key env db = (Err e, db') → same_ledger db db'.
Proof.
  intros H.
  apply processTransfer_inv in H as [(e' & H & ?)|[(resp & H & ?)|(db1 & Hg & H)]].
  - by apply idempotency_gate_Err in H as [_ ->].
  - done.
  - pose proof (idempotency_gate_keeps_ledger _ _ _ _ _ _ Hg) as Hl1.
    etrans; [exact Hl1 |].
    apply transfer_attempt_inv in H as (r0 & db0 & Hu & H).
    destruct r0 as [result|e0]; [| by destruct H as (_ & ? & _)].
    exfalso.
    destruct H as (_ & _ & [?|(k & e' & Hk & _ & Hup)]); [done |].
    (* the record of the key is there and the debit entry is in the ledger *)
    destruct (idempotency_gate_Proceed _ _ _ _ _ _ Hg Hk) as [row Hrow].
    pose proof (transfer_unit_keeps_keys _ _ _ _ _ Hu) as Hkeys.
    pose proof (transfer_unit_Ok _ _ _ _ _ Hu) as Hid.
    unfold updateWithResult in Hup. rewrite Hkeys, Hrow, Hid in Hup. done.
Qed.

(** A callback that returns has appended the two legs, and nothing else. *)
Lemma transfer_unit_Ok_legs td env db result db' :
  transfer_unit td env db = (Ok result, db') → both_legs td db db'.
Proof.
  intros H. apply transfer_unit_inv in H.
  repeat case_match; try (by destruct H).
  destruct H as [(e & ? & _)|(l & [rows|e] & Hbatch & Hcm & H)]; [done | | done].
  destruct (createMultiple_Ok _ _ _ _ Hcm) as [Ht Hall].
  exists l, rows. by repeat split.
Qed.

(** Whatever a transfer returns or throws, it leaves the ledger and the
    balances untouched or has appended both legs. *)
Lemma processTransfer_both_or_neither td key env db r db' :
  processTransfer td key env db = (r, db') →
  same_ledger db db' ∨ both_legs td db db'.
Proof.
  intros H.
  apply processTransfer_inv in H as [(e' & H & ?)|[(resp & H & ?)|(db1 & Hg & H)]].
  - left. by apply idempotency_gate_Err in H as [_ ->].
  - left. by apply idempotency_gate_ReturnStored in H as ->.
  - pose proof (idempotency_gate_keeps_ledger _ _ _ _ _ _ Hg) as Hl1.
    apply transfer_attempt_inv in H as (r0 & db0 & Hu & H).
    destruct r0 as [result|e0].
    + right. destruct H as ([Ht _] & _).
      destruct (transfer_unit_Ok_legs _ _ _ _ _ Hu) as (l & rows & Hbatch & Hall & Ht0).
      exists l, rows. repeat split; [done | done |].
      destruct Hl1 as [Hl1 _]. by rewrite Ht, Ht0, Hl1.
    + left. destruct H as (_ & Hl & _). by etrans.
Qed.

(** Where the locks of a transfer are taken. *)
Lemma processTransfer_locks td key env db db1 r db' :
  idempotency_gate td key env db = (Ok Proceed, db1) →
  processTransfer td key env db = (r, db') →
  lock_trace db' = lock_trace db ++ transfer_locks td db.
Proof.
  intros Hg H.
  apply processTransfer_inv in H as [(e' & H & ?)|[(resp & H & ?)|(db1' & Hg' & H)]];
    [congruence | congruence |].
  assert (db1' = db1) as -> by congruence.
  pose proof (idempotency_gate_keeps_locks _ _ _ _ _ _ Hg) as Ht.
  pose proof (idempotency_gate_keeps_ledger _ _ _ _ _ _ Hg) as [_ Ha].
  apply transfer_attempt_inv in H as (r0 & db0 & Hu & H).
  apply transfer_unit_locks in Hu.
  assert (lock_trace db' = lock_trace db0) as ->
    by (destruct r0; [by destruct H as (_ & ? & _) | by destruct H as (_ & _ & ?)]).
  rewrite Hu, Ht. unfold transfer_locks. by rewrite Ha.
Qed.

(** When the source or the destination row is missing, the error is the
    one of lockForUpdate. *)
Lemma processTransfer_missing_account td key env db db1 r db' :
  idempotency_gate td key env db = (Ok Proceed, db1) →
  processTransfer td key env db = (r, db') →
  account_projections db !! from_account_id td = None
  ∨ account_projections db !! to_account_id td = None →
  r = Err (JsError "Account projection not found").
Proof.
  intros Hg H Hmiss.
  apply processTransfer_inv in H as [(e' & H & ?)|[(resp & H & ?)|(db1' & Hg' & H)]];
    [congruence | congruence |].
  assert (db1' = db1) as -> by congruence.
  pose proof (idempotency_gate_keeps_ledger _ _ _ _ _ _ Hg) as [_ Ha].
  rewrite <- Ha in Hmiss.
  apply transfer_attempt_inv in H as (r0 & db0 & Hu & H).
  apply transfer_unit_inv in Hu.
  destruct (account_projections db1 !! from_account_id td) as [fromA|].
  - destruct (account_projections db1 !! to_account_id td) as [toA|].
    + by destruct Hmiss.
    + destruct Hu as [-> _]. by destruct H as (-> & _).
  - destruct Hu as [-> _]. by destruct H as (-> & _).
Qed.

(** The stored response of a processed, unexpired key is returned as it
    is, and nothing else happens. *)
Lemma processTransfer_replay td key k env db row :
  truthy_key key = Some k →
  idempotency_keys db !! k = Some row →
  clock env ≤ expires_at row →
  is_Some (ik_txn_id row) →
  processTransfer td key env db = (Ok (response_body row), db).
Proof.
  intros Hk Hrow Hexp Hproc.
  unfold processTransfer, idempotency_gate, bind, checkKey. rewrite Hk, Hrow. simpl.
  replace (expires_at row <? clock env) with false by (symmetry; apply Z.ltb_ge; lia).
  by rewrite bool_decide_eq_true_2.
Qed.

(** A key that is there, unexpired and without result does not stop the
    transfer. *)
Lemma idempotency_gate_in_flight td key k env db row :
  truthy_key key = Some k →
  idempotency_keys db !! k = Some row →
  clock env ≤ expires_at row →
  ik_txn_id row = None →
  idempotency_gate td key env db = (Ok Proceed, db).
Proof.
  intros Hk Hrow Hexp Hnone.
  unfold idempotency_gate, bind, checkKey. rewrite Hk, Hrow, Hnone. simpl.
  by replace (expires_at row <? clock env) with false by (symmetry; apply Z.ltb_ge; lia).
Qed.

(** The first entry of a transfer never passes Transaction.validate, so
    the callback of a transfer always throws. *)
Lemma transfer_unit_never_commits td env db :
  ∃ e, (transfer_unit td env db).1 = Err e.
Proof.
  destruct (transfer_unit td env db) as [[result|e] db'] eqn:H; [| by eexists].
  exfalso. unfold transfer_unit in H.
  apply bind_inv in H as [(? & _ & ?)|(fromA & db1 & _ & H)]; [done |].
  apply bind_inv in H as [(? & _ & ?)|(toA & db2 & _ & H)]; [done |].
  repeat case_match; unfold throw in H; simplify_eq.
  apply bind_inv in H as [(? & _ & ?)|(rows & db3 & Hcm & _)]; [done |].
  unfold createMultiple, db_transaction in Hcm. simpl in Hcm.
  unfold Transaction_validate in Hcm. simpl in Hcm.
  rewrite (proj1 (suffixed_reference_invalid _)) in Hcm. simpl in Hcm.
  repeat case_match; simpl in *; unfold throw in *; simplify_eq.
Qed.

Lemma create_Ok d db row db' :
  TransactionRepository_create d db = (Ok row, db') →
  Transaction_validate d = [] ∧ insert_transaction d db = (Ok row, db').
Proof.
  unfold TransactionRepository_create.
  destruct (Transaction_validate d); [| by unfold throw].
  intros H. apply try_catch_inv in H as [(a & H & ?)|(e & db1 & _ & H)].
  - by simplify_eq.
  - destruct (is_unique_violation e); by unfold throw in H.
Qed.

Lemma Transaction_validate_nil d :
  Transaction_validate d = []
  ↔ td_account_id d ≠ 0 ∧ 0 < td_amount d ∧ Pattern.reference (td_reference d) = true.
Proof.
  unfold Transaction_validate.
  destruct (Z.eqb_spec (td_account_id d) 0), (Z.leb_spec (td_amount d) 0),
    (Pattern.reference (td_reference d)); simpl; split;
    first [done | intros (? & ? & ?); done || lia | intros _; repeat split; done || lia].
Qed.

Lemma create_Ok_iff d db :
  (∃ row db', TransactionRepository_create d db = (Ok row, db'))
  ↔ td_account_id d ≠ 0 ∧ ledger_accepts d db = true.
Proof.
  split.
  - intros (row & db' & H). apply create_Ok in H as [Hv H].
    apply Transaction_validate_nil in Hv as (? & _). split; [done |].
    apply insert_transaction_Ok_iff. eauto.
  - intros [Hid Hacc].
    pose proof Hacc as Hacc'. unfold ledger_accepts in Hacc'.
    repeat match goal with
           | H : _ && _ = true |- _ => apply andb_true_iff in H as [H ?]
           end.
    assert (Transaction_validate d = []) as Hv.
    { apply Transaction_validate_nil. repeat split; [done | lia | done]. }
    apply insert_transaction_Ok_iff in Hacc as (row & db' & Hins).
    exists row, db'. unfold TransactionRepository_create, try_catch.
    by rewrite Hv, Hins.
Qed.

(** A created entry is the last of the ledger, with the balance after it. *)
Lemma create_records_balance d db row db' :
  TransactionRepository_create d db = (Ok row, db') → records_balance row db'.
Proof.
  intros H. apply create_Ok in H as [_ H].
  destruct (insert_transaction_balance_after _ _ _ _ H) as (Ht & Hb & Hs).
  split; [| done]. rewrite Ht. apply last_snoc.
Qed.

End Service.

(** ** Atomic units and clients *)

Section ClientFacts.

























End ClientFacts.

(* ===================================================================== *)
(** * The claims *)
(* ===================================================================== *)

(** C1. A successful transfer would create a TRANSFER_OUT and a TRANSFER_IN
    entry with the references [<ref>-OUT] and [<ref>-IN], both accepted by the
    reference check of the ledger store.  The code builds these two entries,
    but neither suffixed reference matches the pattern, whatever [<ref>] is;
    so Transaction.validate rejects the first entry, the callback of the
    transfer throws on every input, and at the input below (1000.00 from
    account 1 to account 3) the transfer fails with the validation error and
    no entry is created. *)
Theorem transfer_entries_fail_reference_check :
  (∀ ref, isValidReference (ref +:+ "-OUT") = false
          ∧ isValidReference (ref +:+ "-IN") = false)
  ∧ (∀ td env db, ∃ e, (transfer_unit td env db).1 = Err e)
  ∧ (processTransfer transfer_1_3 None env_1 seed_db).1
    = Err (JsError "Validation failed: Reference must follow pattern REF[YYYYMMDD]-[6CHARS]")
  ∧ transactions (processTransfer transfer_1_3 None env_1 seed_db).2 = [].
Proof.
  split; [apply suffixed_reference_invalid |].
  split; [apply transfer_unit_never_commits |].
  split; vm_compute; reflexivity.
Qed.


(** C3. Issuing the same transfer with the same key twice in a row should
    return the same TransferResult twice and leave two ledger entries.  At the
    input below (1000.00 from account 1 to account 3, key "k1") the first call
    throws the validation error and removes the record of the key, the second
    call goes the same way, and the ledger is empty after both: no result is
    ever stored for the key. *)
Theorem repeated_transfer_never_stores_result :
  let first := processTransfer transfer_1_3 (Some "k1") env_1 seed_db in
  let second := processTransfer transfer_1_3 (Some "k1") env_2 first.2 in
  first.1
  = Err (JsError "Validation failed: Reference must follow pattern REF[YYYYMMDD]-[6CHARS]")
  ∧ idempotency_keys first.2 !! "k1" = None
  ∧ second.1 = first.1
  ∧ transactions second.2 = [].
Proof. vm_compute. done. Qed.

(** C4. A transfer whose key has an unexpired record without result should
    be rejected as a duplicate in flight, without running the transfer again.
    At the input below (the seeded sample key "test-transfer-001", which has
    no result) the transfer is run again: both rows are locked, the error is
    the one of the transfer itself, and the record of the key is deleted. *)
Theorem in_flight_key_runs_transfer_again :
  let call := processTransfer transfer_1_3 (Some "test-transfer-001") env_1 seed_db in
  idempotency_gate transfer_1_3 (Some "test-transfer-001") env_1 seed_db
  = (Ok Proceed, seed_db)
  ∧ call.1
    = Err (JsError "Validation failed: Reference must follow pattern REF[YYYYMMDD]-[6CHARS]")
  ∧ locks_acquired seed_db call.2 = [1; 3]
  ∧ idempotency_keys call.2 !! "test-transfer-001" = None.
Proof. vm_compute. done. Qed.

(** C5, as the spec has it, fails: with an expired record for the key the
    transfer does not proceed; it throws, and the record stays as it is. *)
Lemma expired_key_not_recreated :
  expires_at sample_key_001 < clock env_late
  ∧ processTransfer transfer_1_3 (Some "test-transfer-001") env_late seed_db
    = (Err (JsError "Idempotency key has expired"), seed_db).
Proof. split; [vm_compute; reflexivity | vm_compute; reflexivity]. Qed.

(** C5, amended.  A transfer whose key has an expired record is refused with
    the error "Idempotency key has expired" before anything else is done: no
    record is created or removed, no lock is taken, nothing is written. *)
Theorem expired_key_is_refused td key k env db row :
  truthy_key key = Some k →
  idempotency_keys db !! k = Some row →
  expires_at row < clock env →
  processTransfer td key env db = (Err (JsError "Idempotency key has expired"), db).
Proof.
  intros Hk Hrow Hexp.
  unfold processTransfer, idempotency_gate, bind, checkKey. rewrite Hk, Hrow. simpl.
  by replace (expires_at row <? clock env) with true by (symmetry; apply Z.ltb_lt; lia).
Qed.

Lemma expired_key_is_refused_witness :
  idempotency_keys seed_db !! "test-transfer-001" = Some sample_key_001
  ∧ expires_at sample_key_001 < clock env_late
  ∧ processTransfer transfer_1_3 (Some "test-transfer-001") env_late seed_db
    = (Err (JsError "Idempotency key has expired"), seed_db).
Proof.
  assert (idempotency_keys seed_db !! "test-transfer-001" = Some sample_key_001)
    as Hrow by (vm_compute; reflexivity).
  assert (expires_at sample_key_001 < clock env_late)
    as Hexp by (vm_compute; reflexivity).
  split; [exact Hrow |]. split; [exact Hexp |].
  exact (expired_key_is_refused transfer_1_3 (Some "test-transfer-001")
           "test-transfer-001" env_late seed_db sample_key_001 eq_refl Hrow Hexp).
Defined.

(** C6, as the spec has it, fails: in the database below account 16 exists,
    is ACTIVE and holds more than the amount, and yet the withdrawal fails,
    because the reference generated for its entry (same day, same first six
    digits of the draw as an earlier withdrawal) is already in the ledger. *)
Lemma withdrawal_reference_collision :
  (∃ acct, account_projections seed_db_after_withdrawal !! op_account_id withdrawal_16
           = Some acct
           ∧ status acct = ACTIVE
           ∧ 0 ≤ current_balance acct - op_amount withdrawal_16)
  ∧ generateReference env_same_prefix = generateReference env_1
  ∧ (processWithdrawal withdrawal_16 env_same_prefix seed_db_after_withdrawal).1
    = Err (JsError "Transaction reference already exists").
Proof.
  split; [| split; vm_compute; reflexivity].
  exists (with_balance account_16 24995000).
  split; [vm_compute; reflexivity |]. split; [reflexivity |]. vm_compute. discriminate.
Qed.

(** C6, amended.  Withdraw succeeds exactly when the account exists, its
    status is ACTIVE, either current_balance - amount >= 0 or the account type
    is CURRENT, and the ledger store accepts the entry (a non-zero account id,
    an amount above zero, a generated reference that is well formed and not
    yet in the ledger, values that fit their columns).  When the debit would
    make the balance of an ACTIVE account of another type negative, it fails
    with the insufficient-balance error, and the database is left as it
    was: the balance unchanged, no ledger entry. *)
Theorem withdrawal_succeeds_iff w env db :
  ((∃ res, (processWithdrawal w env db).1 = Ok res)
   ↔ ∃ acct, account_projections db !! op_account_id w = Some acct
             ∧ status acct = ACTIVE
             ∧ (0 ≤ current_balance acct - op_amount w ∨ account_type acct = CURRENT)
             ∧ op_account_id w ≠ 0
             ∧ ledger_accepts (withdrawal_entry w env) db = true)
  ∧ (∀ acct, account_projections db !! op_account_id w = Some acct →
             status acct = ACTIVE →
             account_type acct ≠ CURRENT →
             current_balance acct - op_amount w < 0 →
             processWithdrawal w env db
             = (Err (JsError "Insufficient balance - no overdraft allowed for this account type"),
                db)).
Proof.
  split.
  - unfold processWithdrawal, bind, findById. simpl.
    fold (withdrawal_entry w env).
    destruct (account_projections db !! op_account_id w) as [acct|]; simpl.
    2:{ split; [by intros [? ?] | by intros (? & ? & _)]. }
    unfold canDebit, isActive, allowsOverdraft.
    destruct (status acct) eqn:Hst; simpl.
    2,3: split; [by intros [? ?] | intros (? & ? & ? & _); simplify_eq; congruence].
    destruct (Z.ltb_spec (current_balance acct - op_amount w) 0) as [Hneg|Hpos]; simpl.
    + destruct (account_type acct) eqn:Hty; simpl;
        try (split; [by intros [? ?]
                    | intros (? & ? & _ & [?|?] & _); simplify_eq; lia || congruence]).
      destruct (TransactionRepository_create (withdrawal_entry w env) db)
        as [[row|e] db'] eqn:Hc; simpl.
      * split; [intros _ | by eauto].
        exists acct. repeat split; try done; [by right | |];
          by apply (create_Ok_iff (withdrawal_entry w env) db); eauto.
      * split; [by intros [? ?] |].
        intros (? & _ & _ & _ & Hid & Hacc).
        destruct (proj2 (create_Ok_iff (withdrawal_entry w env) db) (conj Hid Hacc))
          as (? & ? & ?). congruence.
    + destruct (TransactionRepository_create (withdrawal_entry w env) db)
        as [[row|e] db'] eqn:Hc; simpl.
      * split; [intros _ | by eauto].
        exists acct. repeat split; try done; [by left | |];
          by apply (create_Ok_iff (withdrawal_entry w env) db); eauto.
      * split; [by intros [? ?] |].
        intros (? & _ & _ & _ & Hid & Hacc).
        destruct (proj2 (create_Ok_iff (withdrawal_entry w env) db) (conj Hid Hacc))
          as (? & ? & ?). congruence.
  - intros acct Hacct Hst Hty Hneg.
    unfold processWithdrawal, bind, findById. simpl. rewrite Hacct. simpl.
    unfold canDebit, isActive, allowsOverdraft. rewrite Hst. simpl.
    replace (current_balance acct - op_amount w <? 0) with true
      by (symmetry; by apply Z.ltb_lt).
    by destruct (account_type acct).
Qed.

Lemma withdrawal_succeeds_iff_witness :
  (∃ res, (processWithdrawal withdrawal_16 env_1 seed_db).1 = Ok res)
  ∧ processWithdrawal withdrawal_16_over env_1 seed_db
    = (Err (JsError "Insufficient balance - no overdraft allowed for this account type"),
       seed_db).
Proof.
  split.
  - apply (proj1 (withdrawal_succeeds_iff withdrawal_16 env_1 seed_db)).
    exists account_16.
    split; [vm_compute; reflexivity |]. split; [reflexivity |].
    split; [left; vm_compute; discriminate |]. split; [discriminate |].
    vm_compute. reflexivity.
  - apply (proj2 (withdrawal_succeeds_iff withdrawal_16_over env_1 seed_db) account_16).
    + vm_compute. reflexivity.
    + reflexivity.
    + discriminate.
    + vm_compute. reflexivity.
Defined.

(** C7, as the spec has it, fails: a transfer from account 3 to account 1
    locks row 3 first and row 1 second, which is not the ascending order. *)
Lemma locks_not_ascending :
  locks_acquired seed_db (processTransfer transfer_3_1 None env_1 seed_db).2 = [3; 1]
  ∧ ascending (locks_acquired seed_db (processTransfer transfer_3_1 None env_1 seed_db).2)
    = false.
Proof. split; vm_compute; reflexivity. Qed.

(** C7, amended.  A transfer that gets past the idempotency block locks the
    two rows in the order of the request: the source account first, the
    destination account second, whatever their identifiers are. *)
Theorem locks_follow_request_order td key env db db1 fromAccount toAccount :
  idempotency_gate td key env db = (Ok Proceed, db1) →
  account_projections db !! from_account_id td = Some fromAccount →
  account_projections db !! to_account_id td = Some toAccount →
  locks_acquired db (processTransfer td key env db).2
  = [from_account_id td; to_account_id td].
Proof.
  intros Hg Hfrom Hto.
  destruct (processTransfer td key env db) as [r db'] eqn:H. simpl.
  unfold locks_acquired. rewrite (processTransfer_locks _ _ _ _ _ _ _ Hg H).
  unfold transfer_locks. rewrite Hfrom, Hto.
  by rewrite drop_app_length.
Qed.

Lemma locks_follow_request_order_witness :
  (idempotency_gate transfer_3_1 (Some "k1") env_1 seed_db).1 = Ok Proceed
  ∧ account_projections seed_db !! 3 = Some account_3
  ∧ account_projections seed_db !! 1 = Some account_1
  ∧ locks_acquired seed_db (processTransfer transfer_3_1 (Some "k1") env_1 seed_db).2
    = [3; 1].
Proof.
  split; [vm_compute; reflexivity |].
  split; [vm_compute; reflexivity |].
  split; [vm_compute; reflexivity |].
  apply (locks_follow_request_order transfer_3_1 (Some "k1") env_1 seed_db
           (idempotency_gate transfer_3_1 (Some "k1") env_1 seed_db).2
           account_3 account_1).
  - vm_compute. reflexivity.
  - vm_compute. reflexivity.
  - vm_compute. reflexivity.
Defined.

(** C8. Deposit, Withdraw and Transfer keep every balance equal to the signed
    sum of the account's ledger entries (DEPOSIT and TRANSFER_IN added,
    WITHDRAWAL and TRANSFER_OUT subtracted), whether they succeed or throw;
    and every entry written to the ledger, by any of them, is appended with
    balance_after set to the balance its account has right after it. *)
Theorem balance_is_signed_ledger_sum db env :
  balanced db →
  (∀ d, balanced (processDeposit d env db).2
        ∧ ∀ res, (processDeposit d env db).1 = Ok res →
                 records_balance (r_transaction res) (processDeposit d env db).2)
  ∧ (∀ w, balanced (processWithdrawal w env db).2
          ∧ ∀ res, (processWithdrawal w env db).1 = Ok res →
                   records_balance (r_transaction res) (processWithdrawal w env db).2)
  ∧ (∀ td key, balanced (processTransfer td key env db).2)
  ∧ (∀ new row db', insert_transaction new db = (Ok row, db') →
                    balanced db' ∧ records_balance row db').
Proof.
  intros Hbal.
  split; [intros d; split | split; [intros w; split | split; [intros td key|]]].
  - destruct (processDeposit d env db) as [r db'] eqn:H. simpl.
    apply (same_offsets_balanced db); [| done]. by eapply processDeposit_keeps_offsets.
  - destruct (processDeposit d env db) as [r db'] eqn:H. simpl. intros res ->.
    unfold processDeposit in H.
    apply bind_inv in H as [(? & _ & ?)|(acct & db1 & Hf & H)]; [done |].
    apply findById_inv in Hf as [_ ->].
    repeat case_match; unfold throw in H; simplify_eq.
    apply bind_inv in H as [(? & _ & ?)|(row & db2 & Hc & H)]; [done |].
    unfold ret in H. simplify_eq. by apply create_records_balance in Hc.
  - destruct (processWithdrawal w env db) as [r db'] eqn:H. simpl.
    apply (same_offsets_balanced db); [| done]. by eapply processWithdrawal_keeps_offsets.
  - destruct (processWithdrawal w env db) as [r db'] eqn:H. simpl. intros res ->.
    unfold processWithdrawal in H.
    apply bind_inv in H as [(? & _ & ?)|(acct & db1 & Hf & H)]; [done |].
    apply findById_inv in Hf as [_ ->].
    repeat case_match; unfold throw in H; simplify_eq.
    apply bind_inv in H as [(? & _ & ?)|(row & db2 & Hc & H)]; [done |].
    unfold ret in H. simplify_eq. by apply create_records_balance in Hc.
  - destruct (processTransfer td key env db) as [r db'] eqn:H. simpl.
    apply (same_offsets_balanced db); [| done]. by eapply processTransfer_keeps_offsets.
  - intros new row db' H. split.
    + apply (same_offsets_balanced db); [| done].
      by eapply insert_transaction_keeps_offsets.
    + destruct (insert_transaction_balance_after _ _ _ _ H) as (Ht & Hb & Hs).
      split; [| done]. rewrite Ht. apply last_snoc.
Qed.

Lemma balance_is_signed_ledger_sum_witness :
  balanced opened_db
  ∧ balanced (processDeposit deposit_16 env_1 opened_db).2
  ∧ (∃ res, (processDeposit deposit_16 env_1 opened_db).1 = Ok res
            ∧ balance_after (r_transaction res) = Some 5000
            ∧ records_balance (r_transaction res)
                (processDeposit deposit_16 env_1 opened_db).2).
Proof.
  assert (balanced opened_db) as Hbal.
  { intros a acct Ha. unfold opened_db in Ha. simpl in Ha.
    apply lookup_insert_Some in Ha as [[_ <-]|[_ Ha]]; [reflexivity |].
    apply lookup_insert_Some in Ha as [[_ <-]|[_ Ha]]; [reflexivity |].
    by rewrite lookup_empty in Ha. }
  split; [exact Hbal |].
  destruct (balance_is_signed_ledger_sum opened_db env_1 Hbal) as (Hdep & _).
  destruct (Hdep deposit_16) as [Hb Hrec].
  split; [exact Hb |].
  eexists. split; [vm_compute; reflexivity |]. split; [reflexivity |].
  apply Hrec. vm_compute. reflexivity.
Defined.

(** C9. Every generated reference should be REF, eight digits, a dash and
    six characters of [A-Z0-9].  On 2026-11-01 with the draw 0.5, which
    Number.prototype.toString(36) prints as "0.i", the reference is
    "REF20261101-I": one character after the dash, not six, and
    isValidReference rejects it. *)
Theorem short_draw_reference_malformed :
  random_toString36 (random_digits env_half) = "0.i"
  ∧ generateReference env_half = "REF20261101-I"
  ∧ isValidReference (generateReference env_half) = false.
Proof. repeat split; vm_compute; reflexivity. Qed.

(** C10. processTransfer never throws "Source account not found" or
    "Destination account not found": lockForUpdate returns an account or
    throws, so the two null checks after it cannot fire; and when the source
    or the destination row is missing, a transfer that gets past the
    idempotency block fails with the error of lockForUpdate, "Account
    projection not found". *)
Theorem null_checks_unreachable td key env db :
  (processTransfer td key env db).1 ≠ Err (JsError "Source account not found")
  ∧ (processTransfer td key env db).1 ≠ Err (JsError "Destination account not found")
  ∧ ((idempotency_gate td key env db).1 = Ok Proceed →
     account_projections db !! from_account_id td = None
     ∨ account_projections db !! to_account_id td = None →
     (processTransfer td key env db).1 = Err (JsError "Account projection not found")).
Proof.
  destruct (processTransfer td key env db) as [r db'] eqn:H. simpl.
  assert (∀ e, r = Err e → transfer_error e) as Herr.
  { intros e ->. by eapply processTransfer_error. }
  repeat split.
  - intros ->. specialize (Herr _ eq_refl). inversion Herr.
  - intros ->. specialize (Herr _ eq_refl). inversion Herr.
  - destruct (idempotency_gate td key env db) as [g db1] eqn:Hg. simpl. intros -> Hmiss.
    by eapply processTransfer_missing_account.
Qed.

Lemma null_checks_unreachable_witness :
  (idempotency_gate transfer_99_3 None env_1 seed_db).1 = Ok Proceed
  ∧ account_projections seed_db !! from_account_id transfer_99_3 = None
  ∧ (processTransfer transfer_99_3 None env_1 seed_db).1
    = Err (JsError "Account projection not found").
Proof.
  assert ((idempotency_gate transfer_99_3 None env_1 seed_db).1 = Ok Proceed)
    as Hg by reflexivity.
  assert (account_projections seed_db !! from_account_id transfer_99_3 = None)
    as Hmiss by (vm_compute; reflexivity).
  split; [exact Hg |]. split; [exact Hmiss |].
  exact (proj2 (proj2 (null_checks_unreachable transfer_99_3 None env_1 seed_db))
           Hg (or_introl Hmiss)).
Defined.

(* ===================================================================== *)
(** * Further properties *)
(* ===================================================================== *)

(** ** The reference generator and extractDateFromReference *)

Section ReferenceDates.

Lemma length_pad_acc w n acc :
  String.length (Str.pad_acc w n acc) = (w + String.length acc)%nat.
Proof.
  revert n acc. induction w as [|w IH]; intros n acc; simpl; [done |].
  rewrite IH. simpl. lia.
Qed.

Lemma all_digit_pad_acc w n acc :
  Str.all Chars.is_digit acc = true →
  Str.all Chars.is_digit (Str.pad_acc w n acc) = true.
Proof.
  revert n acc. induction w as [|w IH]; intros n acc Hacc; cbn [Str.pad_acc]; [done |].
  apply IH. cbn [Str.all]. by rewrite dec_digit_is_digit.
Qed.

Lemma length_pad w n : String.length (Str.pad w n) = w.
Proof. unfold Str.pad. rewrite length_pad_acc. simpl. lia. Qed.

Lemma all_digit_pad w n : Str.all Chars.is_digit (Str.pad w n) = true.
Proof. by apply all_digit_pad_acc. Qed.

(** The eight or nine characters the date contributes to a reference. *)
Lemma dateStr_explicit (d : UtcDate) :
  Str.remove "-" (Str.slice 0 10 (toISOString_date d))
  = if (0 <=? year d) && (year d <=? 9999)
    then Str.pad 4 (year d) +:+ Str.pad 2 (month d) +:+ Str.pad 2 (day d)
    else if year d <? 0
         then Str.pad 6 (Z.abs (year d)) +:+ Str.pad 2 (month d)
         else "+" +:+ Str.pad 6 (Z.abs (year d)) +:+ Str.pad 2 (month d).
Proof.
  unfold toISOString_date.
  destruct ((0 <=? year d) && (year d <=? 9999)); [| destruct (year d <? 0)];
    unfold Str.pad, Str.pad_acc, Str.slice;
    repeat (rewrite append_cons || rewrite append_nil); cbn [String.substring Nat.sub];
    repeat first
      [ rewrite remove_dash_digit
      | progress change (Str.remove "-" (String "-" ?s)) with (Str.remove "-" s)
      | progress change (Str.remove "-" (String "+" ?s)) with (String "+"%char (Str.remove "-" s)) ];
    reflexivity.
Qed.

Lemma substring_of_list n (l : list ascii) :
  String.substring 0 n (Str.of_list l) = Str.of_list (take n l).
Proof.
  revert l. induction n as [|n IH]; intros [|c l]; simpl; try done.
  by rewrite IH.
Qed.

Lemma length_of_list (l : list ascii) : String.length (Str.of_list l) = List.length l.
Proof. induction l as [|c l IH]; simpl; [done | by rewrite IH]. Qed.

Lemma length_str_map f (s : string) : String.length (Str.map f s) = String.length s.
Proof. induction s as [|c s IH]; simpl; [done | by rewrite IH]. Qed.

(** The characters the draw contributes: its first six digits, in upper
    case. *)
Lemma randomStr_explicit (digits : list nat) :
  Str.toUpperCase (Str.slice 2 8 (random_toString36 digits))
  = Str.map Chars.to_upper (Str.of_list (List.map Chars.digit36 (take 6 digits))).
Proof.
  unfold Str.toUpperCase, Str.slice, random_toString36.
  destruct digits as [|n digits]; [reflexivity |].
  rewrite !append_cons, append_nil. cbn [String.substring Nat.sub].
  by rewrite substring_of_list, <- fmap_take.
Qed.

Lemma randomStr_all (l : list nat) :
  Str.all Chars.is_upper_alnum
    (Str.map Chars.to_upper (Str.of_list (List.map Chars.digit36 l))) = true.
Proof.
  induction l as [|n l IH]; [done |].
  cbn [List.map Str.of_list Str.map Str.all]. by rewrite digit36_upper_alnum, IH.
Qed.

Lemma randomStr_length (l : list nat) :
  String.length (Str.map Chars.to_upper (Str.of_list (List.map Chars.digit36 (take 6 l))))
  = Nat.min 6 (List.length l).
Proof. by rewrite length_str_map, length_of_list, List.length_map, length_take. Qed.

End ReferenceDates.

Section ReferenceDateTheorems.

Lemma reference_parts (ds rs : string) :
  String.length ds = 8%nat → Str.all Chars.is_digit ds = true →
  Str.all Chars.is_upper_alnum rs = true →
  Pattern.reference ("REF" +:+ ds +:+ "-" +:+ rs) = true ↔ String.length rs = 6%nat.
Proof.
  intros Hds Hdall Hrall. split.
  - intros H. apply reference_shape in H as (d & c & Heq & Hd & _ & Hc & _).
    apply (f_equal String.length) in Heq.
    rewrite !length_append in Heq. simpl in Heq. lia.
  - intros Hrs. by apply reference_intro.
Qed.



Lemma is_digit_code (c : ascii) :
  Chars.is_digit c = true → 0 ≤ Z.of_nat (Chars.code c) - 48 ≤ 9.
Proof.
  unfold Chars.is_digit. intros [H1 H2]%andb_true_iff.
  apply Nat.leb_le in H1, H2. lia.
Qed.

Lemma generateReference_valid_iff (env : Env) :
  isValidReference (generateReference env) = true
  ↔ year (today env) ≤ 9999 ∧ (6 ≤ List.length (random_digits env))%nat.
Proof.
  unfold isValidReference, generateReference.
  rewrite dateStr_explicit, randomStr_explicit.
  pose proof (randomStr_all (take 6 (random_digits env))) as Hall.
  pose proof (randomStr_length (random_digits env)) as Hlen.
  set (rs := Str.map _ _) in *.
  destruct (Z.leb_spec 0 (year (today env))) as [H0|H0];
    destruct (Z.leb_spec (year (today env)) 9999) as [H9|H9]; cbn [andb].
  - rewrite reference_parts; [lia | | | done].
    + rewrite !length_append, !length_pad. done.
    + by rewrite !all_append, !all_digit_pad.
  - destruct (Z.ltb_spec (year (today env)) 0); [lia |]. split; [| lia].
    unfold Pattern.reference. rewrite lit_append, !append_cons. done.
  - destruct (Z.ltb_spec (year (today env)) 0); [| lia].
    rewrite reference_parts; [lia | | | done].
    + rewrite !length_append, !length_pad. done.
    + by rewrite !all_append, !all_digit_pad.
  - lia.
Qed.

(** X1. The generated reference is well formed exactly when the year of the
    date is at most 9999 (a year before 0 gives eight digits as well) and the
    draw prints at least six digits. *)
Theorem generated_reference_valid_iff (env : Env) :
  isValidReference (generateReference env) = true
  ↔ year (today env) ≤ 9999 ∧ (6 ≤ List.length (random_digits env))%nat.
Proof. apply generateReference_valid_iff. Qed.



(** X3. extractDateFromReference returns null exactly for the strings
    isValidReference rejects; for every other string it builds a Date from
    three numbers (no NaN): a year 0..9999, a month index -1..98 and a day
    0..99.  The digits are not checked against the calendar. *)
Theorem extract_date_total (r : string) :
  (isValidReference r = false → extractDateFromReference r = None)
  ∧ (isValidReference r = true →
     ∃ y m d, extractDateFromReference r
              = Some {| da_year := Some y; da_month := Some m; da_day := Some d |}
              ∧ 0 ≤ y ≤ 9999 ∧ -1 ≤ m ≤ 98 ∧ 0 ≤ d ≤ 99).
Proof.
  unfold extractDateFromReference. split; intros Hv; rewrite Hv; [done |].
  cbn [negb]. apply reference_shape in Hv as (ds & c & -> & Hlen & Hall & _).
  do 8 (destruct ds as [|? ds]; [simpl in Hlen; lia |]).
  destruct ds; [| simpl in Hlen; lia].
  cbn [Str.all] in Hall.
  repeat match goal with
         | H : _ && _ = true |- _ => apply andb_true_iff in H as [? H]
         end.
  unfold Str.slice. repeat (rewrite append_cons || rewrite append_nil).
  cbn [String.substring Nat.sub]. unfold parseInt. cbn [parse_digits].
  repeat match goal with
         | H : Chars.is_digit ?a = true |- _ =>
             rewrite H; apply is_digit_code in H
         end.
  cbn [fmap option_fmap option_map].
  do 3 eexists. split; [reflexivity |]. lia.
Qed.

Lemma extract_date_total_witness :
  extractDateFromReference "REF20259999-ABCDEF"
  = Some {| da_year := Some 2025; da_month := Some 98; da_day := Some 99 |}
  ∧ extractDateFromReference "REF20250827-GXPBWH-OUT" = None.
Proof.
  split.
  - destruct (proj2 (extract_date_total "REF20259999-ABCDEF") eq_refl)
      as (y & m & d & H & _). vm_compute. reflexivity.
  - apply (proj1 (extract_date_total "REF20250827-GXPBWH-OUT")). vm_compute. reflexivity.
Defined.

End ReferenceDateTheorems.

(** ** What every operation keeps *)

Section OperationsKeep.

Context (R : relation Database) `{!PreOrder R}.
Hypothesis R_lock : ∀ a db, R db (record_lock a db).
Hypothesis R_keys : ∀ db keys, R db (set_idempotency_keys db keys).
Hypothesis R_back : ∀ db db1, R db db1 → R db (rollback db db1).
Hypothesis R_insert : ∀ new, keeps R (insert_transaction new).

Lemma idempotency_create_keeps k td env :
  keeps R (IdempotencyKeyRepository_create k td env).
Proof.
  intros db r db' H. unfold IdempotencyKeyRepository_create, throw in H.
  repeat case_match; simplify_eq; done || apply R_keys.
Qed.

Lemma updateWithResult_keeps k id body : keeps R (updateWithResult k id body).
Proof.
  intros db r db' H. unfold updateWithResult in H.
  repeat case_match; simplify_eq; done || apply R_keys.
Qed.

Lemma idempotency_delete_keeps k : keeps R (IdempotencyKeyRepository_delete k).
Proof.
  intros db r db' H. unfold IdempotencyKeyRepository_delete in H. simplify_eq.
  apply R_keys.
Qed.

Lemma processDeposit_keeps d env : keeps R (processDeposit d env).
Proof.
  unfold processDeposit.
  apply (keeps_bind R); [apply (findById_keeps R) | intros [acct|]].
  - repeat case_match; try apply (keeps_throw R).
    apply (keeps_bind R); [| intros ?; apply (keeps_ret R)].
    by apply (create_keeps R).
  - apply (keeps_throw R).
Qed.

Lemma processWithdrawal_keeps w env : keeps R (processWithdrawal w env).
Proof.
  unfold processWithdrawal.
  apply (keeps_bind R); [apply (findById_keeps R) | intros [acct|]].
  - repeat case_match; try apply (keeps_throw R).
    apply (keeps_bind R); [| intros ?; apply (keeps_ret R)].
    by apply (create_keeps R).
  - apply (keeps_throw R).
Qed.

Lemma transfer_attempt_keeps td key env : keeps R (transfer_attempt td key env).
Proof.
  unfold transfer_attempt. apply (keeps_try_catch R).
  - apply (keeps_bind R).
    + apply (keeps_db_transaction R); [done |]. by apply (transfer_unit_keeps R).
    + intros result. destruct (truthy_key key) as [k|]; [| apply (keeps_ret R)].
      apply (keeps_bind R); [apply updateWithResult_keeps |].
      intros ?. apply (keeps_ret R).
  - intros e. destruct (truthy_key key) as [k|]; [| apply (keeps_throw R)].
    apply (keeps_bind R); [apply idempotency_delete_keeps |].
    intros ?. apply (keeps_throw R).
Qed.

Lemma processTransfer_keeps td key env : keeps R (processTransfer td key env).
Proof.
  unfold processTransfer. apply (keeps_bind R).
  - apply (idempotency_gate_keeps R). intros k. apply idempotency_create_keeps.
  - intros [response|]; [apply (keeps_ret R) | apply transfer_attempt_keeps].
Qed.

End OperationsKeep.

Section Invariants.

#[local] Instance preserves_preorder P : PreOrder (preserves P).
Proof.
  split; [intros db HP; exact HP | intros x y z Hxy Hyz Hx; by apply Hyz, Hxy].
Qed.

(** An invariant of the tables that every INSERT keeps is kept by every
    operation. *)
Lemma invariant_after_every_operation (P : Database → Prop) db :
  tables_only P →
  (∀ new, keeps (preserves P) (insert_transaction new)) →
  P db → after_every_operation P db.
Proof.
  intros Htab Hins HP.
  assert (∀ a db, preserves P db (record_lock a db)) as Hl
    by (intros a db0 H0; by apply (Htab db0)).
  assert (∀ db keys, preserves P db (set_idempotency_keys db keys)) as Hk
    by (intros db0 keys H0; by apply (Htab db0)).
  assert (∀ db db1, preserves P db db1 → preserves P db (rollback db db1)) as Hb
    by (intros db0 db1 _ H0; by apply (Htab db0)).
  split; [| split; [| split; [| split]]].
  - intros d env. destruct (processDeposit d env db) as [r db'] eqn:H.
    apply (processDeposit_keeps (preserves P) Hins) in H. by apply H.
  - intros w env. destruct (processWithdrawal w env db) as [r db'] eqn:H.
    apply (processWithdrawal_keeps (preserves P) Hins) in H. by apply H.
  - intros td key env. destruct (processTransfer td key env db) as [r db'] eqn:H.
    apply (processTransfer_keeps (preserves P) Hl Hk Hb Hins) in H. by apply H.
  - intros l. destruct (createMultiple l db) as [r db'] eqn:H.
    apply (createMultiple_keeps (preserves P) Hb Hins) in H. by apply H.
  - intros d. destruct (TransactionRepository_create d db) as [r db'] eqn:H.
    apply (create_keeps (preserves P) Hins) in H. by apply H.
Qed.

End Invariants.

Section LedgerInvariants.

Lemma ledger_accepts_inv new db :
  ledger_accepts new db = true →
  0 < td_amount new
  ∧ Pattern.reference (td_reference new) = true
  ∧ reference_used (td_reference new) (transactions db) = false
  ∧ is_Some (account_projections db !! td_account_id new).
Proof.
  unfold ledger_accepts. intros H.
  repeat match goal with
         | H : _ && _ = true |- _ => apply andb_true_iff in H as [H ?]
         end.
  repeat split.
  - by apply Z.ltb_lt.
  - done.
  - by apply negb_true_iff.
  - by eapply bool_decide_eq_true_1.
Qed.

(** What a successful INSERT has checked. *)
Lemma insert_transaction_checked new db row db' :
  insert_transaction new db = (Ok row, db') →
  0 < td_amount new
  ∧ Pattern.reference (td_reference new) = true
  ∧ reference_used (td_reference new) (transactions db) = false
  ∧ is_Some (account_projections db !! td_account_id new).
Proof.
  intros H. apply ledger_accepts_inv, insert_transaction_Ok_iff. eauto.
Qed.

Lemma reference_used_false r (l : list Transaction) :
  reference_used r l = false → r ∉ reference <$> l.
Proof.
  unfold reference_used. intros H Hin.
  apply list_elem_of_fmap in Hin as (t & -> & Ht).
  assert (existsb (λ t0, String.eqb (reference t0) (reference t)) l = true) as Hex.
  { apply existsb_exists. exists t. split; [by apply list_elem_of_In |].
    apply String.eqb_refl. }
  congruence.
Qed.

Lemma insert_keeps_references_unique new :
  keeps (preserves references_unique) (insert_transaction new).
Proof.
  intros db [row|e] db' H HP.
  - destruct (insert_transaction_checked _ _ _ _ H) as (_ & _ & Hused & _).
    destruct (insert_transaction_Ok _ _ _ _ H) as (Hrow & -> & _).
    unfold references_unique in *. simpl. rewrite fmap_app. simpl.
    apply NoDup_app. split; [done |]. split; [| apply NoDup_singleton].
    intros r Hr Hr'. apply list_elem_of_singleton in Hr'. subst r.
    apply reference_used_false in Hused. by rewrite Hrow in Hr.
  - by rewrite (insert_transaction_Err _ _ _ _ H).
Qed.

Lemma insert_keeps_entries_checked new :
  keeps (preserves entries_checked) (insert_transaction new).
Proof.
  intros db [row|e] db' H HP.
  - destruct (insert_transaction_checked _ _ _ _ H) as (Hamt & Href & _).
    destruct (insert_transaction_Ok _ _ _ _ H) as (Hrow & -> & _).
    unfold entries_checked in *. simpl. apply Forall_app. split; [done |].
    apply Forall_singleton. by rewrite Hrow.
  - by rewrite (insert_transaction_Err _ _ _ _ H).
Qed.

Lemma lookup_update_account_balance new accounts a :
  is_Some (update_account_balance new accounts !! a) ↔ is_Some (accounts !! a).
Proof.
  unfold update_account_balance.
  destruct (td_txn_type new);
    (destruct (decide (td_account_id new = a)) as [->|Hne];
     [rewrite lookup_alter_eq | rewrite lookup_alter_ne by done]);
    try done; by rewrite fmap_is_Some.
Qed.

Lemma insert_keeps_entries_have_account new :
  keeps (preserves entries_have_account) (insert_transaction new).
Proof.
  intros db [row|e] db' H HP.
  - destruct (insert_transaction_checked _ _ _ _ H) as (_ & _ & _ & Hacct).
    destruct (insert_transaction_Ok _ _ _ _ H) as (Hrow & -> & _).
    unfold entries_have_account in *. simpl. apply Forall_app. split.
    + eapply Forall_impl; [exact HP |]. intros t Ht.
      by apply lookup_update_account_balance.
    + apply Forall_singleton. rewrite Hrow. simpl.
      by apply lookup_update_account_balance.
  - by rewrite (insert_transaction_Err _ _ _ _ H).
Qed.


Lemma StronglySorted_snoc {A} (R : A → A → Prop) (l : list A) (y : A) :
  StronglySorted R l → Forall (λ x, R x y) l → StronglySorted R (l ++ [y]).
Proof.
  induction 1 as [|x l Hl IH Hx]; intros Hall; simpl.
  - repeat constructor.
  - apply Forall_cons in Hall as [Hxy Hall].
    constructor; [by apply IH |].
    apply Forall_app. split; [done | by apply Forall_singleton].
Qed.

#[local] Instance sequence_kept_preorder : PreOrder sequence_kept.
Proof.
  split.
  - intros db. split; [lia | done].
  - intros x y z [Hxy Hxy'] [Hyz Hyz']. split; [lia | auto].
Qed.

Lemma ids_in_sequence_tables db db' :
  transactions db' = transactions db →
  txn_id_seq db ≤ txn_id_seq db' →
  ids_in_sequence db → ids_in_sequence db'.
Proof.
  unfold ids_in_sequence. intros -> Hseq [Hall Hsorted]. split; [| done].
  eapply Forall_impl; [exact Hall |]. intros t Ht. simpl in Ht. lia.
Qed.

Lemma insert_keeps_sequence new : keeps sequence_kept (insert_transaction new).
Proof.
  intros db [row|e] db' H.
  - destruct (insert_transaction_Ok _ _ _ _ H) as (Hrow & -> & _).
    split; [simpl; lia |]. intros [Hall Hsorted]. split; simpl.
    + apply Forall_app. split.
      * eapply Forall_impl; [exact Hall |]. intros t Ht. simpl in Ht. lia.
      * apply Forall_singleton. rewrite Hrow. simpl. lia.
    + apply StronglySorted_snoc; [done |].
      eapply Forall_impl; [exact Hall |]. intros t Ht. by rewrite Hrow.
  - rewrite (insert_transaction_Err _ _ _ _ H). split; [simpl; lia |].
    apply ids_in_sequence_tables; [done | simpl; lia].
Qed.

(** X4. Reference uniqueness: when no two ledger entries share a reference,
    none do after any deposit, withdrawal, transfer, create or createMultiple,
    whether the call returns or throws. *)
Theorem references_stay_unique db :
  references_unique db → after_every_operation references_unique db.
Proof.
  apply invariant_after_every_operation.
  - intros x y [Ht _]. unfold references_unique. by rewrite Ht.
  - apply insert_keeps_references_unique.
Qed.

Lemma references_stay_unique_witness :
  references_unique seed_db
  ∧ references_unique (processWithdrawal withdrawal_16 env_same_prefix
                         seed_db_after_withdrawal).2.
Proof.
  assert (references_unique seed_db) as H0 by constructor.
  split; [exact H0 |].
  pose proof (proj1 (references_stay_unique seed_db H0) withdrawal_16 env_1) as H1.
  exact (proj1 (proj2 (references_stay_unique seed_db_after_withdrawal H1))
           withdrawal_16 env_same_prefix).
Defined.

(** X5. The CHECK constraints as an invariant: when every ledger entry has an
    amount above zero and a well-formed reference, this is so after any
    operation. *)
Theorem entries_stay_checked db :
  entries_checked db → after_every_operation entries_checked db.
Proof.
  apply invariant_after_every_operation.
  - intros x y [Ht _]. unfold entries_checked. by rewrite Ht.
  - apply insert_keeps_entries_checked.
Qed.

Lemma entries_stay_checked_witness :
  entries_checked seed_db
  ∧ entries_checked (processDeposit deposit_16 env_1 seed_db).2.
Proof.
  assert (entries_checked seed_db) as H0 by constructor.
  split; [exact H0 |].
  exact (proj1 (entries_stay_checked seed_db H0) deposit_16 env_1).
Defined.

(** X6. The txn_ids of the ledger grow in insertion order and stay below the
    next value of the sequence, through every operation; failed INSERTs and
    rollbacks burn sequence values but never reuse one. *)
Theorem ids_stay_in_sequence db :
  ids_in_sequence db → after_every_operation ids_in_sequence db.
Proof.
  intros HP.
  assert (∀ a db, sequence_kept db (record_lock a db)) as Hl.
  { intros a db0. split; [simpl; lia | by apply ids_in_sequence_tables]. }
  assert (∀ db keys, sequence_kept db (set_idempotency_keys db keys)) as Hk.
  { intros db0 keys. split; [simpl; lia | by apply ids_in_sequence_tables]. }
  assert (∀ db db1, sequence_kept db db1 → sequence_kept db (rollback db db1)) as Hb.
  { intros db0 db1 [Hseq _]. split; [done | by apply ids_in_sequence_tables]. }
  pose proof insert_keeps_sequence as Hins.
  split; [| split; [| split; [| split]]].
  - intros d env. destruct (processDeposit d env db) as [r db'] eqn:H.
    apply (processDeposit_keeps sequence_kept Hins) in H. by apply H.
  - intros w env. destruct (processWithdrawal w env db) as [r db'] eqn:H.
    apply (processWithdrawal_keeps sequence_kept Hins) in H. by apply H.
  - intros td key env. destruct (processTransfer td key env db) as [r db'] eqn:H.
    apply (processTransfer_keeps sequence_kept Hl Hk Hb Hins) in H. by apply H.
  - intros l. destruct (createMultiple l db) as [r db'] eqn:H.
    apply (createMultiple_keeps sequence_kept Hb Hins) in H. by apply H.
  - intros d. destruct (TransactionRepository_create d db) as [r db'] eqn:H.
    apply (create_keeps sequence_kept Hins) in H. by apply H.
Qed.

Lemma ids_stay_in_sequence_witness :
  ids_in_sequence seed_db
  ∧ ids_in_sequence (processDeposit deposit_16 env_1 seed_db).2.
Proof.
  assert (ids_in_sequence seed_db) as H0 by (split; constructor).
  split; [exact H0 |].
  exact (proj1 (ids_stay_in_sequence seed_db H0) deposit_16 env_1).
Defined.


End LedgerInvariants.

(** ** Deposits and withdrawals *)

Section DepositsAndWithdrawals.


(** The ways a deposit ends. *)
Lemma processDeposit_inv d env db r db' :
  processDeposit d env db = (r, db') →
  match account_projections db !! op_account_id d with
  | None => r = Err (JsError "Account not found") ∧ db' = db
  | Some acct =>
      match status acct with
      | ACTIVE =>
          ∃ r1, TransactionRepository_create (deposit_entry d env) db = (r1, db')
                ∧ match r1 with
                  | Ok row => r = Ok {| r_success := true; r_transaction := row;
                                        r_new_balance := current_balance acct + op_amount d |}
                  | Err e => r = Err e
                  end
      | _ => r = Err (JsError "Account is not active") ∧ db' = db
      end
  end.
Proof.
  unfold processDeposit, bind, findById. simpl. fold (deposit_entry d env).
  destruct (account_projections db !! op_account_id d) as [acct|];
    [| unfold throw; intros; by simplify_eq].
  unfold canCredit, isActive.
  destruct (status acct); simpl; try (unfold throw; intros; by simplify_eq).
  destruct (TransactionRepository_create (deposit_entry d env) db) as [[row|e] db1] eqn:Hc;
    unfold ret; intros; simplify_eq; eexists; split; done.
Qed.

(** The ways a withdrawal ends. *)
Lemma processWithdrawal_inv w env db r db' :
  processWithdrawal w env db = (r, db') →
  match account_projections db !! op_account_id w with
  | None => r = Err (JsError "Account not found") ∧ db' = db
  | Some acct =>
      match status acct with
      | ACTIVE =>
          if (current_balance acct - op_amount w <? 0) && negb (allowsOverdraft acct)
          then r = Err (JsError
                   "Insufficient balance - no overdraft allowed for this account type")
               ∧ db' = db
          else
            ∃ r1, TransactionRepository_create (withdrawal_entry w env) db = (r1, db')
                  ∧ match r1 with
                    | Ok row => r = Ok {| r_success := true; r_transaction := row;
                                          r_new_balance := current_balance acct - op_amount w |}
                    | Err e => r = Err e
                    end
      | _ => r = Err (JsError "Account is not active") ∧ db' = db
      end
  end.
Proof.
  unfold processWithdrawal, bind, findById. simpl. fold (withdrawal_entry w env).
  destruct (account_projections db !! op_account_id w) as [acct|];
    [| unfold throw; intros; by simplify_eq].
  unfold canDebit, isActive.
  destruct (status acct); simpl; try (unfold throw; intros; by simplify_eq).
  destruct ((current_balance acct - op_amount w <? 0) && negb (allowsOverdraft acct));
    [unfold throw; intros; by simplify_eq |].
  destruct (TransactionRepository_create (withdrawal_entry w env) db) as [[row|e] db1] eqn:Hc;
    unfold ret; intros; simplify_eq; eexists; split; done.
Qed.






Lemma create_keeps_keys d : keeps same_keys (TransactionRepository_create d).
Proof. apply (create_keeps same_keys), insert_transaction_keeps_keys. Qed.

(** X10. A deposit or a withdrawal that throws, for whatever reason, leaves
    every table as it was: no balance, no ledger entry and no idempotency
    record differs. *)
Theorem failed_posting_changes_nothing op env db e :
  ((processDeposit op env db).1 = Err e →
   same_tables db (processDeposit op env db).2)
  ∧ ((processWithdrawal op env db).1 = Err e →
     same_tables db (processWithdrawal op env db).2).
Proof.
  split.
  - destruct (processDeposit op env db) as [r db'] eqn:H. simpl. intros ->.
    apply processDeposit_inv in H.
    repeat case_match; try (destruct H as [_ ->]; by split).
    destruct H as ([row|e1] & Hc & Hr); simplify_eq.
    split; [by eapply create_Err | by eapply create_keeps_keys].
  - destruct (processWithdrawal op env db) as [r db'] eqn:H. simpl. intros ->.
    apply processWithdrawal_inv in H.
    repeat case_match; try (destruct H as [_ ->]; by split).
    destruct H as ([row|e1] & Hc & Hr); simplify_eq.
    split; [by eapply create_Err | by eapply create_keeps_keys].
Qed.

Lemma failed_posting_changes_nothing_witness :
  (processWithdrawal withdrawal_16_over env_1 seed_db).1
  = Err (JsError "Insufficient balance - no overdraft allowed for this account type")
  ∧ same_tables seed_db (processWithdrawal withdrawal_16_over env_1 seed_db).2.
Proof.
  assert ((processWithdrawal withdrawal_16_over env_1 seed_db).1
          = Err (JsError "Insufficient balance - no overdraft allowed for this account type"))
    as H by (vm_compute; reflexivity).
  split; [exact H |].
  exact (proj2 (failed_posting_changes_nothing withdrawal_16_over env_1 seed_db _) H).
Defined.

(** X11. A deposit succeeds exactly when the account exists, is ACTIVE, has
    an id other than 0, and the ledger store accepts the entry; the credit
    check of the account never turns an ACTIVE account down. *)
Theorem deposit_succeeds_iff d env db :
  (∃ res, (processDeposit d env db).1 = Ok res)
  ↔ ∃ acct, account_projections db !! op_account_id d = Some acct
            ∧ status acct = ACTIVE
            ∧ op_account_id d ≠ 0
            ∧ ledger_accepts (deposit_entry d env) db = true.
Proof.
  destruct (processDeposit d env db) as [r db'] eqn:H. simpl.
  apply processDeposit_inv in H.
  destruct (account_projections db !! op_account_id d) as [acct|] eqn:Hacct.
  2:{ destruct H as [-> _]. split; [by intros [? ?] | by intros (? & ? & _)]. }
  destruct (status acct) eqn:Hst;
    try (destruct H as [-> _];
         split; [by intros [? ?] | intros (? & ? & ? & _); simplify_eq; congruence]).
  destruct H as ([row|e] & Hc & ->).
  - split; [intros _ | by eauto].
    exists acct. repeat split; try done;
      by apply (create_Ok_iff (deposit_entry d env) db); eauto.
  - split; [by intros [? ?] |].
    intros (? & _ & _ & Hid & Hacc).
    destruct (proj2 (create_Ok_iff (deposit_entry d env) db) (conj Hid Hacc))
      as (? & ? & ?). congruence.
Qed.

Lemma deposit_succeeds_iff_witness :
  ∃ res, (processDeposit deposit_16 env_1 seed_db).1 = Ok res.
Proof.
  apply (proj2 (deposit_succeeds_iff deposit_16 env_1 seed_db)).
  exists account_16.
  split; [vm_compute; reflexivity |]. split; [reflexivity |].
  split; [discriminate |]. vm_compute. reflexivity.
Defined.

End DepositsAndWithdrawals.

(** ** More that the operations keep *)

Section ServiceInvariants.

(** A transfer never writes the ledger or a balance (its first entry never
    passes validation). *)
Lemma processTransfer_same_ledger td key env db :
  same_ledger db (processTransfer td key env db).2.
Proof.
  destruct (processTransfer td key env db) as [r db'] eqn:H. simpl.
  apply processTransfer_inv in H as [(e' & H & ?)|[(resp & H & ?)|(db1 & Hg & H)]].
  - by apply idempotency_gate_Err in H as [_ ->].
  - by apply idempotency_gate_ReturnStored in H as ->.
  - pose proof (idempotency_gate_keeps_ledger _ _ _ _ _ _ Hg) as Hl1.
    etrans; [exact Hl1 |].
    apply transfer_attempt_inv in H as (r0 & db0 & Hu & H).
    destruct r0 as [result|e0]; [| by destruct H as (_ & ? & _)].
    destruct (transfer_unit_never_commits td env db1) as [e He].
    rewrite Hu in He. done.
Qed.

(** The rows of other accounts are not written by a posting. *)
Lemma posting_other_rows new db r db' a :
  TransactionRepository_create new db = (r, db') →
  a ≠ td_account_id new →
  account_projections db' !! a = account_projections db !! a.
Proof.
  intros H Hne. destruct r as [row|e].
  - apply create_Ok in H as [_ H].
    destruct (insert_transaction_Ok _ _ _ _ H) as (_ & -> & _). simpl.
    unfold update_account_balance.
    destruct (td_txn_type new); by rewrite lookup_alter_ne.
  - apply create_Err in H as [_ Ha]. by rewrite Ha.
Qed.

(** X12. Referential integrity: when every ledger entry belongs to an account
    that has a row, this is so after every operation of the service and of
    the transaction repository, after both deletes and after both updates of
    the account repository: an account row with entries cannot be deleted. *)
Theorem entries_keep_their_account db :
  entries_have_account db →
  after_every_operation entries_have_account db
  ∧ (∀ a, entries_have_account (AccountProjectionRepository_delete a db).2)
  ∧ (∀ id, entries_have_account (TransactionRepository_delete id db).2)
  ∧ (∀ a b, entries_have_account (updateBalance a b db).2)
  ∧ (∀ a s, entries_have_account (updateStatus a s db).2).
Proof.
  intros HP. split; [| split; [| split; [| split]]].
  - revert HP. apply invariant_after_every_operation.
    + intros x y [Ht Ha]. unfold entries_have_account. by rewrite Ht, Ha.
    + apply insert_keeps_entries_have_account.
  - intros a. unfold AccountProjectionRepository_delete.
    destruct (account_projections db !! a); [| done].
    destruct (existsb _ _) eqn:Hex; [done |]. simpl.
    unfold entries_have_account in *. simpl.
    apply Forall_forall. intros t Ht.
    rewrite Forall_forall in HP. specialize (HP t Ht).
    rewrite lookup_delete_ne; [done |]. intros ->.
    assert (existsb (λ t0, account_id t0 =? account_id t) (transactions db) = true)
      as Hex'; [| congruence].
    apply existsb_exists. exists t. split; [by apply list_elem_of_In | apply Z.eqb_refl].
  - intros id. unfold TransactionRepository_delete.
    repeat case_match; try done. simpl.
    unfold entries_have_account in *. simpl.
    rewrite Forall_forall in HP. apply Forall_forall. intros t Ht.
    apply list_elem_of_In, filter_In in Ht as [Ht _].
    by apply HP, list_elem_of_In.
  - intros a b. unfold updateBalance.
    repeat case_match; try done. simpl.
    unfold entries_have_account in *. simpl.
    eapply Forall_impl; [exact HP |]. intros t Ht. simpl in Ht.
    destruct (decide (a = account_id t)) as [->|Hne];
      [by rewrite lookup_insert_eq | by rewrite lookup_insert_ne].
  - intros a s. unfold updateStatus.
    repeat case_match; try done. simpl.
    unfold entries_have_account in *. simpl.
    eapply Forall_impl; [exact HP |]. intros t Ht. simpl in Ht.
    destruct (decide (a = account_id t)) as [->|Hne];
      [by rewrite lookup_insert_eq | by rewrite lookup_insert_ne].
Qed.

Lemma entries_keep_their_account_witness :
  let db := (processDeposit deposit_16 env_1 seed_db).2 in
  entries_have_account db
  ∧ (AccountProjectionRepository_delete 16 db).1 = Err (PgError "23503")
  ∧ entries_have_account (AccountProjectionRepository_delete 16 db).2.
Proof.
  assert (entries_have_account seed_db) as H0 by constructor.
  pose proof (proj1 (proj1 (entries_keep_their_account seed_db H0)) deposit_16 env_1) as H1.
  split; [exact H1 |]. split; [vm_compute; reflexivity |].
  exact (proj1 (proj2 (entries_keep_their_account _ H1)) 16).
Defined.



(** X14. An account that is not ACTIVE is never written: whatever deposit,
    withdrawal or transfer is asked for, its row is afterwards what it
    was. *)
Theorem inactive_account_untouched db a acct :
  account_projections db !! a = Some acct →
  status acct ≠ ACTIVE →
  (∀ d env, account_projections (processDeposit d env db).2 !! a = Some acct)
  ∧ (∀ w env, account_projections (processWithdrawal w env db).2 !! a = Some acct)
  ∧ (∀ td key env, account_projections (processTransfer td key env db).2 !! a = Some acct).
Proof.
  intros Hacct Hst. split; [| split].
  - intros d env. destruct (processDeposit d env db) as [r db'] eqn:H. simpl.
    apply processDeposit_inv in H.
    destruct (decide (op_account_id d = a)) as [Heq|Hne].
    + rewrite Heq, Hacct in H.
      destruct (status acct); [done | |]; by destruct H as [_ ->].
    + destruct (account_projections db !! op_account_id d) as [acct0|];
        [| by destruct H as [_ ->]].
      destruct (status acct0); try by destruct H as [_ ->].
      destruct H as (r1 & Hc & _).
      rewrite (posting_other_rows _ _ _ _ a Hc); [done |]. simpl. congruence.
  - intros w env. destruct (processWithdrawal w env db) as [r db'] eqn:H. simpl.
    apply processWithdrawal_inv in H.
    destruct (decide (op_account_id w = a)) as [Heq|Hne].
    + rewrite Heq, Hacct in H.
      destruct (status acct); [done | |]; by destruct H as [_ ->].
    + destruct (account_projections db !! op_account_id w) as [acct0|];
        [| by destruct H as [_ ->]].
      destruct (status acct0); try by destruct H as [_ ->].
      destruct ((current_balance acct0 - op_amount w <? 0) && negb (allowsOverdraft acct0));
        [by destruct H as [_ ->] |].
      destruct H as (r1 & Hc & _).
      rewrite (posting_other_rows _ _ _ _ a Hc); [done |]. simpl. congruence.
  - intros td key env.
    destruct (processTransfer_same_ledger td key env db) as [_ Ha]. by rewrite Ha.
Qed.

Lemma inactive_account_untouched_witness :
  (processDeposit {| op_account_id := 2; op_amount := 5000;
                     op_counterparty := None; op_description := None |}
     env_1 seed_db).1 = Err (JsError "Account is not active")
  ∧ account_projections
      (processDeposit {| op_account_id := 2; op_amount := 5000;
                         op_counterparty := None; op_description := None |}
         env_1 seed_db).2 !! 2 = Some account_2.
Proof.
  split; [vm_compute; reflexivity |].
  refine (proj1 (inactive_account_untouched seed_db 2 account_2 _ _) _ env_1).
  - vm_compute. reflexivity.
  - discriminate.
Defined.

End ServiceInvariants.

(** ** The transfer endpoint *)

Section TransferEndpoint.

(** When the idempotency block returns a stored response, the record of
    the key is there, unexpired and processed, and the response is its
    response_body. *)
Lemma idempotency_gate_stored td key env db response db' :
  idempotency_gate td key env db = (Ok (ReturnStored response), db') →
  ∃ k row, truthy_key key = Some k
           ∧ idempotency_keys db !! k = Some row
           ∧ clock env ≤ expires_at row
           ∧ is_Some (ik_txn_id row)
           ∧ response = response_body row.
Proof.
  unfold idempotency_gate. intros H.
  destruct (truthy_key key) as [k|]; [| by unfold ret in H].
  exists k. unfold bind, checkKey in H.
  destruct (idempotency_keys db !! k) as [row|]; simpl in H.
  - exists row.
    destruct (expires_at row <? clock env) eqn:Hexp; [by unfold throw in H |].
    destruct (bool_decide (is_Some (ik_txn_id row))) eqn:Hproc;
      unfold ret in H; simplify_eq.
    apply Z.ltb_ge in Hexp. apply bool_decide_eq_true_1 in Hproc. done.
  - destruct (IdempotencyKeyRepository_create k td env db) as [[row|e] db1];
      unfold ret in H; by simplify_eq.
Qed.

(** X15. validateTransferData accepts exactly the transfers between two
    different accounts with ids other than 0, of an amount above zero and at
    most 1000000.00, with a description of at most 255 characters. *)
Theorem transfer_data_valid_iff (td : TransferData) :
  validateTransferData td = []
  ↔ from_account_id td ≠ 0
    ∧ to_account_id td ≠ 0
    ∧ from_account_id td ≠ to_account_id td
    ∧ 0 < tr_amount td ≤ 100000000
    ∧ (∀ d, tr_description td = Some d → (String.length d ≤ 255)%nat).
Proof.
  unfold validateTransferData.
  destruct (Z.eqb_spec (from_account_id td) 0), (Z.eqb_spec (to_account_id td) 0),
    (Z.eqb_spec (from_account_id td) (to_account_id td)),
    (Z.leb_spec (tr_amount td) 0), (Z.ltb_spec 100000000 (tr_amount td));
    simpl; try (split; [done | intros (? & ? & ? & ? & _); done || lia]).
  destruct (tr_description td) as [d|]; [| split; [intros _ | done]].
  - destruct (Nat.ltb_spec 255 (String.length d)); simpl.
    + split; [done |]. intros (_ & _ & _ & _ & Hd). specialize (Hd d eq_refl). lia.
    + split; [intros _ | done]. repeat split; try done || lia.
      intros d' [= <-]. lia.
  - repeat split; try done || lia.
Qed.

(** processTransfer returns exactly when it replays a stored response. *)
Lemma processTransfer_Ok_iff td key env db resp :
  (processTransfer td key env db).1 = Ok resp
  ↔ ∃ k row, truthy_key key = Some k
             ∧ idempotency_keys db !! k = Some row
             ∧ clock env ≤ expires_at row
             ∧ is_Some (ik_txn_id row)
             ∧ resp = response_body row.
Proof.
  split.
  - destruct (processTransfer td key env db) as [r db'] eqn:H. simpl. intros ->.
    apply processTransfer_inv in H as [(e' & _ & ?)|[(resp' & H & ?)|(db1 & _ & H)]];
      [done | |].
    + simplify_eq. by eapply idempotency_gate_stored.
    + apply transfer_attempt_inv in H as (r0 & db0 & Hu & H).
      destruct (transfer_unit_never_commits td env db1) as [e He].
      rewrite Hu in He. simpl in He. subst r0. by destruct H as (? & _).
  - intros (k & row & Hk & Hrow & Hexp & Hproc & ->).
    by rewrite (processTransfer_replay td key k env db row).
Qed.

(** X16. processTransfer returns only what is stored: the call returns
    exactly when the record of its key is there, unexpired and processed,
    and then it returns the response_body of that record and leaves the
    database as it is.  No call returns a result of its own. *)
Theorem transfer_returns_only_stored td key env db resp :
  (processTransfer td key env db).1 = Ok resp
  ↔ ∃ k row, truthy_key key = Some k
             ∧ idempotency_keys db !! k = Some row
             ∧ clock env ≤ expires_at row
             ∧ is_Some (ik_txn_id row)
             ∧ resp = response_body row.
Proof. apply processTransfer_Ok_iff. Qed.

(** X17. The transfer endpoint: a request that fails validateTransferData is
    answered 400 with the list of errors and the service is not called; any
    other request is either answered 201 with a stored response, or its error
    is handed to the error handler; in no case is a ledger entry or a balance
    written. *)
Theorem transfer_endpoint_outcomes td key env db :
  let out := TransactionController_transfer td key env db in
  same_ledger db out.2
  ∧ match out.1 with
    | Responded code body =>
        (code = 400 ∧ api_success body = false
         ∧ validateTransferData td ≠ []
         ∧ api_errors body = Some (validateTransferData td)
         ∧ out.2 = db)
        ∨ (code = 201 ∧ api_success body = true
           ∧ validateTransferData td = []
           ∧ out.2 = db
           ∧ ∃ k row, truthy_key key = Some k
                      ∧ idempotency_keys db !! k = Some row
                      ∧ is_Some (ik_txn_id row)
                      ∧ api_data body = Some (response_body row))
    | Forwarded e => validateTransferData td = [] ∧ transfer_error e
    end.
Proof.
  unfold TransactionController_transfer.
  destruct (validateTransferData td) as [|err errs] eqn:Hv; simpl.
  2:{ split; [done |]. left. by repeat split. }
  pose proof (processTransfer_same_ledger td key env db) as Hl.
  pose proof (processTransfer_Ok_iff td key env db) as Hret.
  destruct (processTransfer td key env db) as [[resp|e] db'] eqn:H; simpl in *.
  - split; [done |]. right.
    destruct (proj1 (Hret resp) eq_refl) as (k & row & Hk & Hrow & Hexp & Hproc & ->).
    rewrite (processTransfer_replay td key k env db row) in H by done.
    simplify_eq. repeat split; eauto 10.
  - split; [done |]. split; [done |]. by eapply processTransfer_error.
Qed.

End TransferEndpoint.

(** ** The idempotency repository *)

Section IdempotencyRepository.

(** X18. Round trip of create and checkKey: a key that has just been created
    is reported as existing, not processed and without response; it is
    reported expired exactly when more than 24 hours have passed; findByKey
    returns the record, which holds the request.  A second create of the key
    is refused and changes nothing. *)
Theorem created_key_round_trip k td env env' db row db' :
  IdempotencyKeyRepository_create k td env db = (Ok row, db') →
  checkKey k env' db'
  = (Ok {| ks_exists := true;
           ks_expired := clock env + 24 * 60 * 60 * 1000 <? clock env';
           ks_processed := false;
           ks_response := None |}, db')
  ∧ findByKey k db' = (Ok (Some row), db')
  ∧ request_body row = td
  ∧ IdempotencyKeyRepository_create k td env' db'
    = (Err (JsError "Idempotency key already exists"), db').
Proof.
  unfold IdempotencyKeyRepository_create, throw, checkKey, findByKey, createExpiryDate.
  destruct (IdempotencyKey_validate k); [| done].
  destruct (idempotency_keys db !! k); [done |].
  intros [= <- <-]. simpl. rewrite lookup_insert_eq. simpl. done.
Qed.

Lemma created_key_round_trip_witness :
  (checkKey "k1" env_2 (IdempotencyKeyRepository_create "k1" transfer_1_3 env_1 seed_db).2).1
  = Ok {| ks_exists := true; ks_expired := false;
          ks_processed := false; ks_response := None |}.
Proof.
  destruct (IdempotencyKeyRepository_create "k1" transfer_1_3 env_1 seed_db)
    as [r db'] eqn:H.
  assert (∃ row, r = Ok row) as [row ->].
  { vm_compute in H. simplify_eq. eauto. }
  destruct (created_key_round_trip _ _ _ env_2 _ _ _ H) as (Hck & _).
  simpl. rewrite Hck. vm_compute. reflexivity.
Defined.

(** X19. A stored result is what a retry gets: once updateWithResult has
    stored a result under a key, every transfer with that key before the
    expiry returns exactly that result and changes nothing, whatever the
    transfer data of the retry. *)
Theorem stored_result_is_replayed k id body db row db' td key env :
  updateWithResult k id body db = (Ok row, db') →
  truthy_key key = Some k →
  clock env ≤ expires_at row →
  processTransfer td key env db' = (Ok (Some body), db')
  ∧ has_txn_id id (transactions db) = true
  ∧ same_ledger db db'.
Proof.
  unfold updateWithResult. intros H Hk Hexp.
  destruct (idempotency_keys db !! k) as [row0|] eqn:Hrow; [| done].
  destruct (has_txn_id id (transactions db)) eqn:Hid; [| done].
  simplify_eq. split; [| done].
  rewrite (processTransfer_replay td key k env _
             {| ik_txn_id := Some id; request_body := request_body row0;
                response_body := Some body; expires_at := expires_at row0 |});
    try done.
  simpl. by rewrite lookup_insert_eq.
Qed.

(** What a deposit of 50.00 into account 16 returns at [env_1] on [seed_db]
    is stored under the seeded key and replayed to a transfer with it. *)
Lemma stored_result_is_replayed_witness :
  let db := (processDeposit deposit_16 env_1 seed_db).2 in
  let entry := {| txn_id := 1; account_id := 16; amount := 5000; txn_type := DEPOSIT;
                  counterparty := Some "Cash"; reference := "REF20261101-4FZYO8";
                  description := None; balance_after := Some 25005000 |} in
  let body := {| success := true; transfer_reference := "REF20261101-4FZYO8";
                 debit_transaction := entry; credit_transaction := entry;
                 from_account_new_balance := 0; to_account_new_balance := 0 |} in
  (processTransfer transfer_3_1 (Some "test-transfer-001") env_2
     (updateWithResult "test-transfer-001" 1 body db).2).1
  = Ok (Some body).
Proof.
  intros db entry body.
  destruct (updateWithResult "test-transfer-001" 1 body db) as [r db'] eqn:H.
  assert (∃ row, r = Ok row ∧ expires_at row = expires_at sample_key_001)
    as (row & -> & Hexp).
  { vm_compute in H. simplify_eq. eauto. }
  destruct (stored_result_is_replayed _ _ _ _ _ _ transfer_3_1
              (Some "test-transfer-001") env_2 H) as [Hpt _].
  - reflexivity.
  - rewrite Hexp. vm_compute. discriminate.
  - simpl. by rewrite Hpt.
Defined.

(** X20. cleanupExpired deletes exactly the expired records and returns
    their number, which is the expired_keys of getStats; afterwards no
    record is expired (at the same clock reading), a second cleanup deletes
    nothing, and the ledger and the balances are untouched. *)
Theorem cleanup_removes_expired env db :
  let db' := (cleanupExpired env db).2 in
  (∀ k row, idempotency_keys db' !! k = Some row
            ↔ idempotency_keys db !! k = Some row ∧ clock env ≤ expires_at row)
  ∧ (∃ stats, (getStats env db).1 = Ok stats
              ∧ (cleanupExpired env db).1 = Ok (expired_keys stats))
  ∧ (cleanupExpired env db).1
    = Ok (Z.of_nat (size (idempotency_keys db)) - Z.of_nat (size (idempotency_keys db')))
  ∧ (∀ k, ∃ ks, (checkKey k env db').1 = Ok ks ∧ ks_expired ks = false)
  ∧ (cleanupExpired env db').1 = Ok 0
  ∧ same_ledger db db'.
Proof.
  unfold cleanupExpired, getStats. simpl.
  set (keys := idempotency_keys db).
  assert (∀ k row,
            filter (λ kv : string * IdempotencyKey, ¬ expires_at kv.2 < clock env) keys
              !! k = Some row
            ↔ keys !! k = Some row ∧ clock env ≤ expires_at row) as Hlookup.
  { intros k row. rewrite map_lookup_filter_Some. simpl. split.
    - intros [? ?]. split; [done | lia].
    - intros [? ?]. split; [done | lia]. }
  split; [exact Hlookup |].
  split; [by eexists |].
  split.
  { f_equal.
    pose proof (map_size_disj_union _ _
                  (map_disjoint_filter_complement
                     (λ kv : string * IdempotencyKey, expires_at kv.2 < clock env) keys))
      as Hsz.
    rewrite map_filter_union_complement in Hsz. cbv beta in Hsz. lia. }
  split.
  { intros k. unfold checkKey. simpl.
    match goal with
    | |- context [?m !! k] => destruct (m !! k) as [row|] eqn:Hk
    end; simpl.
    - eexists. split; [done |]. simpl.
      apply Hlookup in Hk as [_ Hexp]. by apply Z.ltb_ge.
    - by eexists. }
  split; [| done].
  f_equal. change 0 with (Z.of_nat 0). f_equal.
  apply map_size_empty_iff, map_empty_filter.
  intros k row Hk. apply Hlookup in Hk as [_ Hexp]. simpl. lia.
Qed.

(** X21. getStats: the pending keys are those that are not processed, and
    neither the processed nor the expired keys are more than all keys. *)
Theorem stats_add_up env db :
  ∃ stats, (getStats env db).1 = Ok stats
           ∧ total_keys stats = processed_keys stats + pending_keys stats
           ∧ 0 ≤ processed_keys stats ≤ total_keys stats
           ∧ 0 ≤ expired_keys stats ≤ total_keys stats
           ∧ 0 ≤ pending_keys stats
           ∧ pending_keys stats
             = Z.of_nat (size (filter (λ kv, ik_txn_id kv.2 = None) (idempotency_keys db))).
Proof.
  unfold getStats. eexists. split; [done |]. simpl.
  set (keys := idempotency_keys db).
  pose proof (map_size_filter (λ kv : string * IdempotencyKey, is_Some (ik_txn_id kv.2))
                keys) as Hp.
  pose proof (map_size_filter (λ kv : string * IdempotencyKey, expires_at kv.2 < clock env)
                keys) as He.
  pose proof (map_size_disj_union _ _
                (map_disjoint_filter_complement
                   (λ kv : string * IdempotencyKey, is_Some (ik_txn_id kv.2)) keys)) as Hsz.
  rewrite map_filter_union_complement in Hsz.
  assert (filter (λ kv : string * IdempotencyKey, ¬ is_Some (ik_txn_id kv.2)) keys
          = filter (λ kv, ik_txn_id kv.2 = None) keys) as Hnone.
  { apply map_filter_ext. intros k row _. simpl.
    rewrite <- eq_None_not_Some. done. }
  rewrite Hnone in Hsz. lia.
Qed.

End IdempotencyRepository.

(** ** Looking entries up, and the account repository *)

Section Lookups.

Lemma find_snoc {A} (f : A → bool) (l : list A) (x : A) :
  existsb f l = false → f x = true → List.find f (l ++ [x]) = Some x.
Proof.
  induction l as [|y l IH]; simpl; intros Hl Hx; [by rewrite Hx |].
  apply orb_false_iff in Hl as [Hy Hl]. rewrite Hy. by apply IH.
Qed.

Lemma ids_below_sequence db :
  ids_in_sequence db → has_txn_id (txn_id_seq db) (transactions db) = false.
Proof.
  intros [Hall _]. unfold has_txn_id.
  apply not_true_is_false. intros Hex.
  apply existsb_exists in Hex as (t & Ht & Heq).
  rewrite Forall_forall in Hall. apply list_elem_of_In, Hall in Ht.
  apply Z.eqb_eq in Heq. lia.
Qed.

(** What can be looked up after an entry has been created. *)
Lemma created_entry_lookups d db row db' :
  TransactionRepository_create d db = (Ok row, db') →
  findByReference (td_reference d) db' = (Ok (Some row), db')
  ∧ (ids_in_sequence db → getTransactionById (txn_id row) db' = (Ok row, db'))
  ∧ (∀ a, (getTransactionCount a db').1
          = Ok (match (getTransactionCount a db).1 with Ok n => n | Err _ => 0 end
                + if td_account_id d =? a then 1 else 0)).
Proof.
  intros H. apply create_Ok in H as [_ H].
  destruct (insert_transaction_checked _ _ _ _ H) as (_ & _ & Hused & _).
  destruct (insert_transaction_Ok _ _ _ _ H) as (Hrow & -> & _).
  split; [| split].
  - unfold findByReference. simpl. f_equal. f_equal.
    apply find_snoc; [exact Hused |]. rewrite Hrow. simpl. apply String.eqb_refl.
  - intros Hseq. apply ids_below_sequence in Hseq.
    unfold getTransactionById, bind, TransactionRepository_findById. simpl.
    rewrite find_snoc; [done | | apply Z.eqb_refl].
    by rewrite Hrow.
  - intros a. unfold getTransactionCount. simpl. f_equal.
    rewrite List.filter_app, length_app. simpl. rewrite Hrow. simpl.
    destruct (td_account_id d =? a); simpl; lia.
Qed.

(** X22. Round trip of a posting: after a deposit or a withdrawal has
    returned, findByReference finds its entry under the generated reference,
    getTransactionById finds it under its txn_id (in a ledger whose ids are in
    sequence), and the transaction count of the account has grown by one. *)
Theorem posted_entry_is_found op env db res run :
  ids_in_sequence db →
  run = processDeposit op env db ∨ run = processWithdrawal op env db →
  run.1 = Ok res →
  findByReference (generateReference env) run.2 = (Ok (Some (r_transaction res)), run.2)
  ∧ getTransactionById (txn_id (r_transaction res)) run.2
    = (Ok (r_transaction res), run.2)
  ∧ ∃ n, getTransactionCount (op_account_id op) db = (Ok n, db)
         ∧ getTransactionCount (op_account_id op) run.2 = (Ok (n + 1), run.2).
Proof.
  intros Hseq Hrun Hres.
  assert (∃ entry row,
            TransactionRepository_create entry db = (Ok row, run.2)
            ∧ td_reference entry = generateReference env
            ∧ td_account_id entry = op_account_id op
            ∧ r_transaction res = row) as (entry & row & Hc & Href & Hacct & ->).
  { destruct run as [r db']. simpl in *. subst r. destruct Hrun as [Hrun|Hrun].
    - symmetry in Hrun. apply processDeposit_inv in Hrun.
      repeat case_match; try by destruct Hrun.
      destruct Hrun as ([row|e] & Hc & Hr); simplify_eq.
      by exists (deposit_entry op env), row.
    - symmetry in Hrun. apply processWithdrawal_inv in Hrun.
      repeat case_match; try by destruct Hrun.
      destruct Hrun as ([row|e] & Hc & Hr); simplify_eq.
      by exists (withdrawal_entry op env), row. }
  destruct (created_entry_lookups _ _ _ _ Hc) as (Hf & Hg & Hn).
  rewrite Href in Hf. split; [done |]. split; [by apply Hg |].
  specialize (Hn (op_account_id op)). rewrite Hacct, Z.eqb_refl in Hn.
  unfold getTransactionCount in *. simpl in *. eexists. split; [done |].
  by rewrite Hn.
Qed.

Lemma posted_entry_is_found_witness :
  ∃ row, findByReference "REF20261101-4FZYO8" (processDeposit deposit_16 env_1 seed_db).2
         = (Ok (Some row), (processDeposit deposit_16 env_1 seed_db).2)
         ∧ txn_id row = 1 ∧ amount row = 5000.
Proof.
  assert (ids_in_sequence seed_db) as H0 by (split; constructor).
  destruct (processDeposit deposit_16 env_1 seed_db) as [r db'] eqn:H.
  assert (∃ res, r = Ok res ∧ txn_id (r_transaction res) = 1
                 ∧ amount (r_transaction res) = 5000) as (res & -> & Hid & Hamt).
  { vm_compute in H. simplify_eq. eexists. by repeat split. }
  exists (r_transaction res). split; [| done].
  exact (proj1 (posted_entry_is_found deposit_16 env_1 seed_db res (Ok res, db') H0
                  (or_introl (eq_sym H)) eq_refl)).
Defined.

(** X23. A frozen or closed account refuses postings: once updateStatus has
    set a status other than ACTIVE, isActive reports false, and every deposit
    into and every withdrawal from the account throws 'Account is not active'
    and changes nothing; the update itself leaves the balance and the ledger
    as they were. *)
Theorem inactive_status_refuses_postings a s db row db' :
  updateStatus a s db = (Ok row, db') →
  s ≠ ACTIVE →
  AccountProjectionRepository_isActive a db' = (Ok false, db')
  ∧ (getBalance a db').1 = (getBalance a db).1
  ∧ transactions db' = transactions db
  ∧ (∀ op env, op_account_id op = a →
       processDeposit op env db' = (Err (JsError "Account is not active"), db')
       ∧ processWithdrawal op env db' = (Err (JsError "Account is not active"), db')).
Proof.
  unfold updateStatus. intros H Hs.
  destruct (account_projections db !! a) as [row0|] eqn:Hrow; [| done].
  simplify_eq.
  unfold AccountProjectionRepository_isActive, getBalance. simpl.
  rewrite lookup_insert_eq, Hrow. simpl.
  split; [by destruct s |]. split; [done |]. split; [done |].
  intros op env Ha.
  unfold processDeposit, processWithdrawal, bind, findById. simpl.
  rewrite Ha, lookup_insert_eq. unfold isActive. simpl.
  by destruct s.
Qed.

Lemma inactive_status_refuses_postings_witness :
  (processWithdrawal withdrawal_16 env_1 (updateStatus 16 FROZEN seed_db).2).1
  = Err (JsError "Account is not active").
Proof.
  destruct (updateStatus 16 FROZEN seed_db) as [r db'] eqn:H.
  assert (∃ row, r = Ok row) as [row ->].
  { vm_compute in H. simplify_eq. eauto. }
  assert (FROZEN ≠ ACTIVE) as Hs by discriminate.
  destruct (inactive_status_refuses_postings _ _ _ _ _ H Hs) as (_ & _ & _ & Hop).
  destruct (Hop withdrawal_16 env_1 eq_refl) as [_ Hw]. cbn [snd]. by rewrite Hw.
Defined.

(** X24. updateBalance writes a balance without a ledger entry: getBalance
    returns the new balance, no entry is added and no other row changes, so
    the balance of the account is the signed sum of its entries afterwards
    only if the new balance is that sum. *)
Theorem updateBalance_bypasses_ledger a b db row db' :
  updateBalance a b db = (Ok row, db') →
  getBalance a db' = (Ok (Some b), db')
  ∧ transactions db' = transactions db
  ∧ (∀ a', a' ≠ a → account_projections db' !! a' = account_projections db !! a')
  ∧ offset db' a = Some (b - ledger_sum a (transactions db))
  ∧ (balanced db' → b = ledger_sum a (transactions db)).
Proof.
  unfold updateBalance. intros H.
  destruct (account_projections db !! a) as [row0|] eqn:Hrow; [| done].
  destruct (fits_decimal_15_2 b); [| done]. simplify_eq.
  unfold getBalance, offset. simpl. rewrite lookup_insert_eq. simpl.
  split; [done |]. split; [done |].
  split; [intros a' Hne; by rewrite lookup_insert_ne |].
  split; [done |].
  intros Hbal. specialize (Hbal a (with_balance row0 b)). simpl in Hbal.
  rewrite lookup_insert_eq in Hbal. by apply Hbal.
Qed.

Lemma updateBalance_bypasses_ledger_witness :
  (getBalance 16 (updateBalance 16 100 seed_db).2).1 = Ok (Some 100)
  ∧ ¬ balanced (updateBalance 16 100 seed_db).2.
Proof.
  destruct (updateBalance 16 100 seed_db) as [r db'] eqn:H.
  assert (∃ row, r = Ok row) as [row ->].
  { vm_compute in H. simplify_eq. eauto. }
  destruct (updateBalance_bypasses_ledger _ _ _ _ _ H) as (Hg & _ & _ & _ & Hb).
  cbn [snd]. rewrite Hg. split; [done |].
  intros Hbal. apply Hb in Hbal. vm_compute in Hbal. discriminate.
Defined.

End Lookups.

(** ** The models and the statements that repeat them *)

Section ModelsAgree.

(** X25. Transaction.isCredit and isDebit split the four kinds the way the
    balance trigger does: every kind is one of the two, and on an account
    that has a row the trigger adds the amount of an entry isCredit accepts
    and subtracts the amount of one isDebit accepts. *)
Theorem credit_and_debit_match_trigger new accounts acct :
  accounts !! td_account_id new = Some acct →
  isDebit (td_txn_type new) = negb (isCredit (td_txn_type new))
  ∧ current_balance <$> update_account_balance new accounts !! td_account_id new
    = Some (if isCredit (td_txn_type new)
            then current_balance acct + td_amount new
            else current_balance acct - td_amount new).
Proof.
  intros Hacct. unfold update_account_balance, isDebit, isCredit.
  destruct (td_txn_type new); rewrite lookup_alter_eq, Hacct; done.
Qed.

Lemma credit_and_debit_match_trigger_witness :
  current_balance <$>
    update_account_balance (withdrawal_entry withdrawal_16 env_1) seed_accounts !! 16
  = Some 24995000.
Proof.
  assert (seed_accounts !! 16 = Some account_16) as H by (vm_compute; reflexivity).
  exact (proj2 (credit_and_debit_match_trigger
                  (withdrawal_entry withdrawal_16 env_1) seed_accounts account_16 H)).
Defined.


End ModelsAgree.
